(** * The playback pipeline of video_player.cpp, embedded and verified

    The development follows the source file top-down: the C integer and
    memory primitives the code relies on, the audio ring buffer (the
    globals [audio_buf], [audio_buf_size], [audio_buf_index], the SDL
    callback [audio_callback] and the producer code inside [run]), the
    libav collaborators (demuxer and decoders) as an explicit environment,
    [open_file], the main loop of [run] and [main].  The sibling program
    video_player.c is embedded in [Module PlayerC] as far as its exit status
    is concerned.

    Doubles are IEEE binary64 values ([PrimFloat]); the 32-bit cursors of
    the ring buffer are integers with their wrap-around written out. *)

From Stdlib Require Import ZArith Lia Floats Strings.String Strings.Byte.
From stdpp Require Import base tactics option list.

Local Open Scope Z_scope.

(* Decimal literals such as 1e-6 denote the nearest double, as in C. *)
Set Warnings "-inexact-float".

(** ** C integers and memory *)

(** A value stored into a [uint32_t] object. *)
Definition uint32_t (z : Z) : Z := z mod 2 ^ 32.

Definition INT_MAX : Z := 2 ^ 31 - 1.

(** The result of [int64_t] arithmetic on the two's complement targets the
    player builds for: the 64-bit product or sum wraps around. *)
Definition int64_t (z : Z) : Z := (z + 2 ^ 63) mod 2 ^ 64 - 2 ^ 63.

(** [int x = u] for a [uint32_t] value [u]: values above [INT_MAX] wrap to
    negative numbers on the two's complement targets the player builds for. *)
Definition int_of_uint32 (u : Z) : Z :=
  if u <=? INT_MAX then u else u - 2 ^ 32.

(** [SDL_memset(dst + off, c, n)].  A negative [n] would be converted to a
    huge [size_t]; the model writes nothing there and every statement below
    excludes that case explicitly. *)
Definition SDL_memset (dst : list byte) (off : Z) (c : byte) (n : Z) : list byte :=
  list_inserts (Z.to_nat off) (replicate (Z.to_nat n) c) dst.

(** [SDL_memcpy(dst, src + src_off, n)]. *)
Definition SDL_memcpy (dst src : list byte) (src_off n : Z) : list byte :=
  list_inserts 0 (take (Z.to_nat n) (drop (Z.to_nat src_off) src)) dst.

(** [av_realloc(buf, n)]: the first [min n (length buf)] bytes are kept.  The
    bytes a growing reallocation adds are indeterminate in C; the producer
    overwrites every one of them before anything reads them, so the model
    fills them with zero. *)
Definition av_realloc (buf : list byte) (n : Z) : list byte :=
  resize (Z.to_nat n) x00 buf.

(** ** Decoded frames

    One [AVFrame] type serves both decoders, as in libavutil.  [data0] is
    the memory behind [data[0]]: the interleaved 16-bit samples of an audio
    frame, the picture of a video frame. *)
Record AVFrame := {
  frame_pts : Z;
  nb_samples : Z;
  nb_channels : Z;
  data0 : list byte
}.

(** ** The audio ring buffer

    [audio_callback] runs on SDL's audio thread while [run] produces on the
    main thread.  The embedding takes each operation as one step; the
    histories of [ring_run] interleave the steps in any order. *)

Record AudioBuf := {
  audio_buf : list byte;
  audio_buf_size : Z;
  audio_buf_index : Z
}.

(** The globals as initialised: [audio_buf = NULL] and both cursors zero. *)
Definition audio_init : AudioBuf :=
  {| audio_buf := []; audio_buf_size := 0; audio_buf_index := 0 |}.

(** [audio_callback(userdata, stream, len)]: returns the stream buffer as the
    callback leaves it and the new value of the globals. *)
Definition audio_callback (stream : list byte) (len : Z) (r : AudioBuf)
  : list byte * AudioBuf :=
  if audio_buf_size r <=? audio_buf_index r then
    (SDL_memset stream 0 x00 len, r)
  else
    let copy := int_of_uint32 (uint32_t (audio_buf_size r - audio_buf_index r)) in
    let copy := if len <? copy then len else copy in
    let stream := SDL_memcpy stream (audio_buf r) (audio_buf_index r) copy in
    let r' := {| audio_buf := audio_buf r;
                 audio_buf_size := audio_buf_size r;
                 audio_buf_index := uint32_t (audio_buf_index r + copy) |} in
    let stream :=
      if copy <? len then SDL_memset stream copy x00 (len - copy) else stream in
    (stream, r').

(** The 16-bit load and store of the sample copy loop, on bytes. *)
Definition load16 (src : list byte) (k : nat) : byte * byte :=
  (default x00 (src !! k), default x00 (src !! S k)).

Definition store16 (k : nat) (v : byte * byte) (buf : list byte) : list byte :=
  <[S k := snd v]> (<[k := fst v]> buf).

(** [for (int i = 0; i < samples; ++i) dst[i] = ((int16_t* )aframe->data[0])[i];]
    with [dst = (int16_t* )(audio_buf + off)]; [n] iterations remain and the
    loop counter is [i]. *)
Fixpoint copy_samples (n i : nat) (src : list byte) (off : nat) (buf : list byte)
  : list byte :=
  match n with
  | O => buf
  | S n' =>
      copy_samples n' (S i) src off
        (store16 (off + 2 * i) (load16 src (2 * i)) buf)
  end.

(** The body of the loop [while (avcodec_receive_frame(adec, aframe) == 0)] in
    [run] (lines 324 to 333): the producer side of the ring buffer.  The
    products [samples] and [bytes] are [int]s; signed overflow is undefined
    and not modelled. *)
Definition push_audio_frame (f : AVFrame) (r : AudioBuf) : AudioBuf :=
  let samples := nb_samples f * nb_channels f in
  let bytes := samples * 2 in
  let r1 :=
    if uint32_t (audio_buf_size r - audio_buf_index r) <? uint32_t bytes then
      let size' := uint32_t (audio_buf_index r + bytes) in
      {| audio_buf := av_realloc (audio_buf r) size';
         audio_buf_size := size';
         audio_buf_index := audio_buf_index r |}
    else r in
  {| audio_buf :=
       copy_samples (Z.to_nat samples) 0 (data0 f)
         (Z.to_nat (audio_buf_index r1)) (audio_buf r1);
     audio_buf_size := audio_buf_size r1;
     audio_buf_index := uint32_t (audio_buf_index r1 + bytes) |}.

(** [audio_buf_index = audio_buf_size = 0;] in the seek block of [run]: the
    allocation behind [audio_buf] is kept. *)
Definition audio_reset (r : AudioBuf) : AudioBuf :=
  {| audio_buf := audio_buf r; audio_buf_size := 0; audio_buf_index := 0 |}.

(** Histories of the ring buffer: the three operations in any order, each
    run as a whole.  A history does not place a callback inside a push. *)
Inductive ring_op :=
| OpPush (f : AVFrame)
| OpPull (stream : list byte) (len : Z)
| OpReset.

Definition ring_step (r : AudioBuf) (op : ring_op) : AudioBuf :=
  match op with
  | OpPush f => push_audio_frame f r
  | OpPull stream len => snd (audio_callback stream len r)
  | OpReset => audio_reset r
  end.

Definition ring_run (ops : list ring_op) (r : AudioBuf) : AudioBuf :=
  foldl ring_step r ops.

(** The bytes a frame contributes to the buffer. *)
Definition frame_bytes (f : AVFrame) : Z := nb_samples f * nb_channels f * 2.

(** A frame as the audio decoder delivers it for a packed 16-bit format:
    [data0] holds exactly the samples the frame announces. *)
Definition frame_ok (f : AVFrame) : Prop :=
  0 <= nb_samples f /\ 0 <= nb_channels f /\
  frame_bytes f <= INT_MAX /\
  Z.of_nat (length (data0 f)) = frame_bytes f.

(** What the consumer may assume of the globals: the cursors are 32-bit
    values, the unread span fits an [int] and lies inside the allocation. *)
Record ring_wf (r : AudioBuf) : Prop := {
  wf_index : 0 <= audio_buf_index r;
  wf_size : audio_buf_size r < 2 ^ 32;
  wf_span : audio_buf_size r - audio_buf_index r <= INT_MAX;
  wf_alloc : audio_buf_size r <= Z.of_nat (length (audio_buf r))
}.

(** The number of buffered bytes a pull of [len] bytes copies:
    [min len (size - index)], nothing on underrun. *)
Definition pull_copy (len : Z) (r : AudioBuf) : Z :=
  Z.min len (Z.max 0 (audio_buf_size r - audio_buf_index r)).

(** ** Doubles and their conversions *)

(** [(double) z] for a 64-bit integer [z], rounded to the nearest double.
    The magnitude of every value but [INT64_MIN] fits the 63-bit primitive
    integers; that of [INT64_MIN] is the double 2^63. *)
Definition double_of_int64 (z : Z) : float :=
  if z <? 0 then
    if - z <? 2 ^ 63 then (- PrimFloat.of_uint63 (Uint63.of_Z (- z)))%float
    else (-9223372036854775808.0)%float
  else PrimFloat.of_uint63 (Uint63.of_Z z).

(** [(int64_t) x]: truncation towards zero.  The conversion of a NaN or an
    infinity is undefined in C; the model gives 0. *)
Definition int64_of_double (x : float) : Z :=
  match Prim2SF x with
  | S754_finite s m e =>
      let v := if 0 <=? e then Z.pos m * 2 ^ e else Z.pos m / 2 ^ (- e) in
      if s then - v else v
  | _ => 0
  end.

(** ** The libav collaborators

    Constants of libavutil and libavformat. *)
Definition AV_TIME_BASE : Z := 1000000.
Definition AVSEEK_FLAG_BACKWARD : Z := 1.
Definition AV_NOPTS_VALUE : Z := - 2 ^ 63.

Inductive AVMediaType :=
| AVMEDIA_TYPE_VIDEO
| AVMEDIA_TYPE_AUDIO
| AVMEDIA_TYPE_DATA.

Definition is_video (t : AVMediaType) : bool :=
  match t with AVMEDIA_TYPE_VIDEO => true | _ => false end.

Definition is_audio (t : AVMediaType) : bool :=
  match t with AVMEDIA_TYPE_AUDIO => true | _ => false end.

(** A stream of the container.  [codec_opens] is the outcome
    [avcodec_open2] has for the stream's decoder; [time_base] and
    [r_frame_rate] are rationals (numerator, denominator). *)
Record AVStream := {
  codec_type : AVMediaType;
  time_base : Z * Z;
  r_frame_rate : Z * Z;
  codec_found : bool;
  codec_opens : bool
}.

(** A compressed packet.  The payload is opaque to the player; what it
    matters for is the list of frames the decoder makes available once it has
    been given the packet (none, one or several).  [pkt_time] is the packet's
    position in [AV_TIME_BASE] units and [pkt_key] marks a sync point. *)
Record AVPacket := {
  stream_index : Z;
  pkt_time : Z;
  pkt_key : bool;
  pkt_decoded : list AVFrame
}.

(** What lies behind a path on disk. *)
Record Media := {
  opens : bool;
  has_stream_info : bool;
  streams : list AVStream;
  media_duration : Z;
  packets : list AVPacket
}.

(** The demuxer: the opened container and the packets still ahead of the
    read position. *)
Record AVFormatContext := {
  fmt_media : Media;
  fmt_rest : list AVPacket
}.

Definition with_rest (rest : list AVPacket) (c : AVFormatContext) : AVFormatContext :=
  {| fmt_media := fmt_media c; fmt_rest := rest |}.

(** [av_read_frame]: the next packet in container order, or a negative
    result at the end of the file. *)
Definition av_read_frame (rest : list AVPacket) : option AVPacket * list AVPacket :=
  match rest with
  | [] => (None, [])
  | pkt :: rest' => (Some pkt, rest')
  end.

(** The suffix of [pkts] that starts at the last sync point whose position is
    at most [ts]. *)
Fixpoint seek_backward (ts : Z) (pkts : list AVPacket) : option (list AVPacket) :=
  match pkts with
  | [] => None
  | pkt :: tl =>
      match seek_backward ts tl with
      | Some s => Some s
      | None => if pkt_key pkt && (pkt_time pkt <=? ts) then Some pkts else None
      end
  end.

(** [av_seek_frame(fmt, -1, ts, AVSEEK_FLAG_BACKWARD)]: the read position
    moves to the nearest sync point at or before [ts]; when there is none the
    call fails and the position stays. *)
Definition av_seek_frame (c : AVFormatContext) (ts : Z) : AVFormatContext :=
  match seek_backward ts (packets (fmt_media c)) with
  | Some s => with_rest s c
  | None => c
  end.

(** A decode stage: the frames decoded and not yet handed out.  The player
    ignores the result of [avcodec_send_packet], so the model lets the
    decoder accept every packet; a decoder that refuses a packet while
    frames are pending only loses more. *)
Definition AVCodecContext := list AVFrame.

Definition avcodec_send_packet (d : AVCodecContext) (pkt : AVPacket) : AVCodecContext :=
  d ++ pkt_decoded pkt.

Definition avcodec_receive_frame (d : AVCodecContext) : option AVFrame * AVCodecContext :=
  match d with
  | [] => (None, [])
  | f :: d' => (Some f, d')
  end.

Definition avcodec_flush_buffers (d : AVCodecContext) : AVCodecContext := [].

(** [av_frame_alloc()]: a blank frame. *)
Definition av_frame_alloc : AVFrame :=
  {| frame_pts := AV_NOPTS_VALUE; nb_samples := 0; nb_channels := 0; data0 := [] |}.

(** [av_q2d]. *)
Definition av_q2d (q : Z * Z) : float :=
  (double_of_int64 (fst q) / double_of_int64 (snd q))%float.

(** ** Observable calls *)

Inductive stage := Video | Audio.

Inductive event :=
| EvTime (now : float)                       (* glfwGetTime() in the loop *)
| EvSeek (stream ts flags : Z)               (* av_seek_frame *)
| EvFlush (s : stage)                        (* avcodec_flush_buffers *)
| EvRead (pkt : option AVPacket)             (* av_read_frame *)
| EvSend (s : stage)                         (* avcodec_send_packet *)
| EvReceive (s : stage) (f : option AVFrame) (* avcodec_receive_frame *)
| EvRender (f : AVFrame)                     (* sws_scale, render_frame *)
| EvOpenAudio (ok : bool)                    (* SDL_OpenAudioDevice *)
| EvStderr (msg : string).                   (* fprintf(stderr, ...) *)

(** ** The player's state

    The globals of the file that the pipeline reads and writes, together
    with the two locals of [run] that live across iterations of its loop
    ([start] and [last_video]).  [adec = None] is the null pointer.  The
    OpenGL handles, the scaler context and the scratch packet carry no
    information the pipeline depends on and are left out. *)
Record Player := {
  fmt : AVFormatContext;
  vdec : AVCodecContext;
  adec : option AVCodecContext;
  vidx : Z;
  aidx : Z;
  vframe : AVFrame;
  duration : float;
  pts : float;
  seeking : bool;
  seek_target : Z;
  audio : AudioBuf;
  start : float;
  last_video : float
}.

Definition set_fmt (x : AVFormatContext) (p : Player) : Player :=
  {| fmt := x; vdec := vdec p; adec := adec p; vidx := vidx p; aidx := aidx p;
     vframe := vframe p; duration := duration p; pts := pts p;
     seeking := seeking p; seek_target := seek_target p; audio := audio p;
     start := start p; last_video := last_video p |}.

Definition set_vdec (x : AVCodecContext) (p : Player) : Player :=
  {| fmt := fmt p; vdec := x; adec := adec p; vidx := vidx p; aidx := aidx p;
     vframe := vframe p; duration := duration p; pts := pts p;
     seeking := seeking p; seek_target := seek_target p; audio := audio p;
     start := start p; last_video := last_video p |}.

Definition set_adec (x : option AVCodecContext) (p : Player) : Player :=
  {| fmt := fmt p; vdec := vdec p; adec := x; vidx := vidx p; aidx := aidx p;
     vframe := vframe p; duration := duration p; pts := pts p;
     seeking := seeking p; seek_target := seek_target p; audio := audio p;
     start := start p; last_video := last_video p |}.

Definition set_streams (v a : Z) (p : Player) : Player :=
  {| fmt := fmt p; vdec := vdec p; adec := adec p; vidx := v; aidx := a;
     vframe := vframe p; duration := duration p; pts := pts p;
     seeking := seeking p; seek_target := seek_target p; audio := audio p;
     start := start p; last_video := last_video p |}.

Definition set_vframe (x : AVFrame) (p : Player) : Player :=
  {| fmt := fmt p; vdec := vdec p; adec := adec p; vidx := vidx p; aidx := aidx p;
     vframe := x; duration := duration p; pts := pts p;
     seeking := seeking p; seek_target := seek_target p; audio := audio p;
     start := start p; last_video := last_video p |}.

Definition set_duration (x : float) (p : Player) : Player :=
  {| fmt := fmt p; vdec := vdec p; adec := adec p; vidx := vidx p; aidx := aidx p;
     vframe := vframe p; duration := x; pts := pts p;
     seeking := seeking p; seek_target := seek_target p; audio := audio p;
     start := start p; last_video := last_video p |}.

Definition set_pts (x : float) (p : Player) : Player :=
  {| fmt := fmt p; vdec := vdec p; adec := adec p; vidx := vidx p; aidx := aidx p;
     vframe := vframe p; duration := duration p; pts := x;
     seeking := seeking p; seek_target := seek_target p; audio := audio p;
     start := start p; last_video := last_video p |}.

Definition set_seek (flag : bool) (target : Z) (p : Player) : Player :=
  {| fmt := fmt p; vdec := vdec p; adec := adec p; vidx := vidx p; aidx := aidx p;
     vframe := vframe p; duration := duration p; pts := pts p;
     seeking := flag; seek_target := target; audio := audio p;
     start := start p; last_video := last_video p |}.

Definition set_audio (x : AudioBuf) (p : Player) : Player :=
  {| fmt := fmt p; vdec := vdec p; adec := adec p; vidx := vidx p; aidx := aidx p;
     vframe := vframe p; duration := duration p; pts := pts p;
     seeking := seeking p; seek_target := seek_target p; audio := x;
     start := start p; last_video := last_video p |}.

Definition set_start (x : float) (p : Player) : Player :=
  {| fmt := fmt p; vdec := vdec p; adec := adec p; vidx := vidx p; aidx := aidx p;
     vframe := vframe p; duration := duration p; pts := pts p;
     seeking := seeking p; seek_target := seek_target p; audio := audio p;
     start := x; last_video := last_video p |}.

Definition set_last_video (x : float) (p : Player) : Player :=
  {| fmt := fmt p; vdec := vdec p; adec := adec p; vidx := vidx p; aidx := aidx p;
     vframe := vframe p; duration := duration p; pts := pts p;
     seeking := seeking p; seek_target := seek_target p; audio := audio p;
     start := start p; last_video := x |}.

(** The globals before [main] runs: the static initialisers of the file. *)
Definition globals0 : Player :=
  {| fmt := {| fmt_media := {| opens := false; has_stream_info := false;
                               streams := []; media_duration := 0;
                               packets := [] |};
               fmt_rest := [] |};
     vdec := []; adec := None; vidx := -1; aidx := -1;
     vframe := av_frame_alloc; duration := 0; pts := 0;
     seeking := false; seek_target := 0; audio := audio_init;
     start := 0; last_video := 0 |}.

(** ** [open_file] *)

(** The stream selection loop: the first video and the first audio stream. *)
Fixpoint select_streams (ss : list AVStream) (i v a : Z) : Z * Z :=
  match ss with
  | [] => (v, a)
  | st :: ss' =>
      let v' := if is_video (codec_type st) && (v <? 0) then i else v in
      let a' := if is_audio (codec_type st) && (a <? 0) then i else a in
      select_streams ss' (i + 1) v' a'
  end.

(** [fmt->streams[i]], for an index inside the array. *)
Definition stream_at (m : Media) (i : Z) : option AVStream :=
  if i <? 0 then None else streams m !! Z.to_nat i.

(** Whether [avcodec_find_decoder] finds a decoder for stream [i]. *)
Definition codec_found_at (m : Media) (i : Z) : bool :=
  match stream_at m i with
  | Some st => codec_found st
  | None => false
  end.

(** [avcodec_open2] on the decoder [avcodec_find_decoder] returned for stream
    [i]: it fails when no decoder was found or when the decoder does not
    open. *)
Definition codec_opens_at (m : Media) (i : Z) : bool :=
  match stream_at m i with
  | Some st => codec_found st && codec_opens st
  | None => false
  end.

(** [open_file(path)], with [m] what the path holds: the result of the call
    and the globals it leaves.  The probe for a hardware decoder
    ([init_hw_decoder]) only prints to standard output and is left out.  It
    reads the video decoder it is given, so a video stream for which no
    decoder is found is outside the embedding: statements about such a
    container assume [codec_found_at]. *)
Definition open_file (m : Media) (g : Player) : Z * Player :=
  if negb (opens m) then (-1, g) else
  let g := set_fmt {| fmt_media := m; fmt_rest := packets m |} g in
  if negb (has_stream_info m) then (-1, g) else
  let '(v, a) := select_streams (streams m) 0 (vidx g) (aidx g) in
  let g := set_streams v a g in
  if v <? 0 then (-1, g) else
  let g := set_duration (double_of_int64 (media_duration m) * 1e-6)%float g in
  (* video *)
  let g := set_vdec [] g in
  if negb (codec_opens_at m v) then (-1, g) else
  (* audio *)
  let g :=
    if 0 <=? a then
      if codec_opens_at m a then set_adec (Some []) g else set_adec None g
    else g in
  let g := set_vframe av_frame_alloc g in
  (0, g).

(** ** The main loop of [run] *)

(** What the windowing system and the user contribute to one evaluation of
    the loop: the result of [glfwWindowShouldClose], the value of
    [glfwGetTime], and the position (in percent) the seek slider was moved
    to, if it was moved. *)
Record Tick := {
  should_close : bool;
  now : float;
  slider : option float
}.

(** The seek block (lines 301 to 308).  The timestamp handed to
    [av_seek_frame] is the [int64_t] product [seek_target * AV_TIME_BASE]. *)
Definition seek_block (now : float) (p : Player) : Player * list event :=
  if seeking p then
    let ts := int64_t (seek_target p * AV_TIME_BASE) in
    let p := set_fmt (av_seek_frame (fmt p) ts) p in
    let p := set_vdec (avcodec_flush_buffers (vdec p)) p in
    let flush_a :=
      match adec p with Some _ => [EvFlush Audio] | None => [] end in
    let p := set_adec (avcodec_flush_buffers <$> adec p) p in
    let p := set_start (now - double_of_int64 (seek_target p) / 1000000.0)%float p in
    let p := set_seek false (seek_target p) p in
    let p := set_audio (audio_reset (audio p)) p in
    (p, EvSeek (-1) ts AVSEEK_FLAG_BACKWARD :: EvFlush Video :: flush_a)
  else (p, []).

(** [while (avcodec_receive_frame(adec, aframe) == 0) { ... }]: the
    recursion follows the decoder's pending frames, which is how
    [avcodec_receive_frame] consumes them; the loop ends on the first call
    that yields no frame and leaves the decoder empty. *)
Fixpoint drain_audio (d : AVCodecContext) (r : AudioBuf) : AudioBuf * list event :=
  match d with
  | [] => (r, [EvReceive Audio None])
  | f :: d' =>
      let '(r', evs) := drain_audio d' (push_audio_frame f r) in
      (r', EvReceive Audio (Some f) :: evs)
  end.

(** The new value of [pts] once [vframe] holds [f]. *)
Definition update_pts (f : AVFrame) (p : Player) : float :=
  if frame_pts f =? AV_NOPTS_VALUE then pts p
  else
    match stream_at (fmt_media (fmt p)) (vidx p) with
    | Some st => (double_of_int64 (frame_pts f) * av_q2d (time_base st))%float
    | None => pts p
    end.

(** The guard of the audio branch,
    [aidx >= 0 && pkt.stream_index == aidx && adec]: the audio decoder when
    the guard holds. *)
Definition audio_decoder_for (pkt : AVPacket) (p : Player) : option AVCodecContext :=
  if (0 <=? aidx p) && (stream_index pkt =? aidx p) then adec p else None.

(** The decode loop [while (!got_video)] (lines 311 to 337), by recursion on
    the packets ahead of the read position.  The result is [got_video] (false
    when [av_read_frame] failed and the code jumps to [end]), the packets
    left, the state and the calls made. *)
Fixpoint decode_loop (rest : list AVPacket) (p : Player)
  : bool * list AVPacket * Player * list event :=
  match rest with
  | [] => (false, [], p, [EvRead None])
  | pkt :: rest' =>
      if stream_index pkt =? vidx p then
        match avcodec_receive_frame (avcodec_send_packet (vdec p) pkt) with
        | (Some f, d) =>
            let p := set_vdec d p in
            let p := set_vframe f p in
            let p := set_pts (update_pts f p) p in
            (true, rest', p,
             [EvRead (Some pkt); EvSend Video; EvReceive Video (Some f)])
        | (None, d) =>
            let '(g, rest'', p', evs) := decode_loop rest' (set_vdec d p) in
            (g, rest'', p',
             EvRead (Some pkt) :: EvSend Video :: EvReceive Video None :: evs)
        end
      else
        match audio_decoder_for pkt p with
        | Some d =>
            let '(r, drained) :=
              drain_audio (avcodec_send_packet d pkt) (audio p) in
            let p := set_audio r (set_adec (Some []) p) in
            let '(g, rest'', p', evs) := decode_loop rest' p in
            (g, rest'', p',
             EvRead (Some pkt) :: EvSend Audio :: drained ++ evs)
        | None =>
            let '(g, rest'', p', evs) := decode_loop rest' p in
            (g, rest'', p', EvRead (Some pkt) :: evs)
        end
  end.

(** The test of line 339, without its [got_video] conjunct:
    [video_time - last_video >= 1.0 / 30.0]. *)
Definition present_gate (video_time last_video : float) : bool :=
  (1.0 / 30.0 <=? video_time - last_video)%float.

(** The controls window (lines 351 to 359): a moved slider arms a seek. *)
Definition imgui_controls (slider : option float) (p : Player) : Player :=
  match slider with
  | Some pos =>
      set_seek true
        (int64_of_double
           (pos / 100.0 * duration p * double_of_int64 AV_TIME_BASE)%float) p
  | None => p
  end.

(** One pass through the body of the loop.  The first component is false
    when the pass left the loop through [goto end]. *)
Definition iterate (t : Tick) (p : Player) : bool * Player * list event :=
  let video_time := (now t - start p)%float in
  let '(p, ev_seek) := seek_block (now t) p in
  let '(got_video, rest, p, ev_decode) := decode_loop (fmt_rest (fmt p)) p in
  let p := set_fmt (with_rest rest (fmt p)) p in
  if negb got_video then (false, p, EvTime (now t) :: ev_seek ++ ev_decode)
  else
    let '(p, ev_show) :=
      if got_video && present_gate video_time (last_video p)
      then (set_last_video video_time p, [EvRender (vframe p)])
      else (p, []) in
    (true, imgui_controls (slider t) p,
     EvTime (now t) :: ev_seek ++ ev_decode ++ ev_show).

(** How an observed run of the loop ended: the window was closed, the
    container ran out of packets, or the observation stopped (no tick left)
    with the loop still running. *)
Inductive loop_end := WindowClosed | EndOfStream | StillRunning.

Fixpoint main_loop (ticks : list Tick) (p : Player) : loop_end * Player * list event :=
  match ticks with
  | [] => (StillRunning, p, [])
  | t :: ticks' =>
      if should_close t then (WindowClosed, p, [])
      else
        match iterate t p with
        | (false, p', evs) => (EndOfStream, p', evs)
        | (true, p', evs) =>
            let '(e, p'', evs') := main_loop ticks' p' in
            (e, p'', evs ++ evs')
        end
  end.

(** ** [run] and [main] *)

(** The outcomes of the platform calls [main] and [run] make.
    [shaders_ok] says that both shaders compile and [program_links] that the
    shader program links; only video_player.c looks at the two. *)
Record Platform := {
  sdl_init_ok : bool;
  glfw_init_ok : bool;
  window_ok : bool;
  shaders_ok : bool;
  program_links : bool;
  audio_device_ok : bool
}.

Inductive run_end := OpenFailed | Ended (e : loop_end).

(** [run(win, path)], with [m] what [path] holds and [t0] the value of
    [glfwGetTime()] taken before the loop. *)
Definition run (plat : Platform) (m : Media) (t0 : float) (ticks : list Tick)
  : run_end * Player * list event :=
  let '(ret, g) := open_file m globals0 in
  if ret <? 0 then (OpenFailed, g, [EvStderr "Failed to open file"])
  else
    let ev_audio :=
      match adec g with
      | Some _ => if 0 <=? aidx g then [EvOpenAudio (audio_device_ok plat)] else []
      | None => []
      end in
    let g := set_last_video 0 (set_start t0 g) in
    let '(e, g', evs) := main_loop ticks g in
    (Ended e, g', ev_audio ++ evs).

(** [main(argc, argv)]: the exit status, [None] while the observed run has
    not left the loop, and the calls made.  [disk] maps a path to what it
    holds. *)
Definition main (argv : list string) (plat : Platform) (disk : string -> Media)
    (t0 : float) (ticks : list Tick) : option Z * list event :=
  let argc := Z.of_nat (length argv) in
  if negb (argc =? 2) then
    (Some 1, [EvStderr ("Usage: " ++ default EmptyString (argv !! 0%nat) ++ " <video>")%string])
  else if negb (sdl_init_ok plat) then (Some 1, [EvStderr "SDL init failed"])
  else if negb (glfw_init_ok plat) then (Some 1, [])
  else if negb (window_ok plat) then (Some 1, [])
  else
    let '(e, _, evs) := run plat (disk (default EmptyString (argv !! 1%nat))) t0 ticks in
    match e with
    | Ended StillRunning => (None, evs)
    | _ => (Some 0, evs)
    end.

(** ** The sibling program video_player.c

    Its control flow up to the exit status: [openVideo], [runPlayer] with
    its loop, and [main]. *)
Module PlayerC.

Record State := {
  rest : list AVPacket;
  packet : option AVPacket;
  codecCtx : AVCodecContext;
  lastTime : float;
  frameRate : float
}.

(** The first video stream, or -1. *)
Fixpoint find_video (ss : list AVStream) (i : Z) : Z :=
  match ss with
  | [] => -1
  | st :: ss' => if is_video (codec_type st) then i else find_video ss' (i + 1)
  end.

(** [openVideo(filename)]: the result and the message printed on failure.
    Allocation failures are not modelled. *)
Definition openVideo (m : Media) : Z * list event * State :=
  let blank := {| rest := []; packet := None; codecCtx := [];
                  lastTime := 0; frameRate := 30 |} in
  if negb (opens m) then (-1, [EvStderr "Could not open video file"], blank)
  else if negb (has_stream_info m) then
    (-1, [EvStderr "Could not find stream info"], blank)
  else
    let videoStream := find_video (streams m) 0 in
    if videoStream =? -1 then (-1, [EvStderr "No video stream found"], blank)
    else
    match stream_at m videoStream with
    | None => (-1, [EvStderr "No video stream found"], blank)
    | Some st =>
        if negb (codec_found st) then (-1, [EvStderr "Unsupported codec"], blank)
        else if negb (codec_opens st) then
          (-1, [EvStderr "Could not open codec"], blank)
        else
          (0, [], {| rest := packets m; packet := None; codecCtx := [];
                     lastTime := 0; frameRate := av_q2d (r_frame_rate st) |})
    end.

(** One pass through the loop of [runPlayer]; false after [break]. *)
Definition iterate (t : Tick) (s : State) : bool * State * list event :=
  if (1.0 / frameRate s <=? now t - lastTime s)%float then
    let d :=
      match packet s with
      | Some pkt => avcodec_send_packet (codecCtx s) pkt
      | None => codecCtx s
      end in
    match av_read_frame (rest s) with
    | (Some pkt, rest') =>
        (true, {| rest := rest'; packet := Some pkt; codecCtx := [];
                  lastTime := now t; frameRate := frameRate s |},
         EvRender <$> d)
    | (None, _) =>
        (false, {| rest := []; packet := None; codecCtx := [];
                   lastTime := now t; frameRate := frameRate s |},
         EvRender <$> d)
    end
  else (true, s, []).

Fixpoint loop (ticks : list Tick) (s : State) : loop_end * list event :=
  match ticks with
  | [] => (StillRunning, [])
  | t :: ticks' =>
      if should_close t then (WindowClosed, [])
      else
        match iterate t s with
        | (false, _, evs) => (EndOfStream, evs)
        | (true, s', evs) =>
            let '(e, evs') := loop ticks' s' in (e, evs ++ evs')
        end
  end.

(** [runPlayer(window, filename)]: [inl c] when the function called
    [exit(c)], [inr e] when it returned.  [initOpenGL] calls [exit(1)] when
    one of the two shaders does not compile (in [compileShader]) and when
    the program does not link; its messages go to standard output. *)
Definition runPlayer (plat : Platform) (m : Media) (ticks : list Tick)
  : (Z + loop_end) * list event :=
  let '(ret, msgs, s) := openVideo m in
  if ret <? 0 then (inl 1, msgs)
  else if negb (shaders_ok plat) then (inl 1, msgs)
  else if negb (program_links plat) then (inl 1, msgs)
  else
    let s := match av_read_frame (rest s) with
             | (Some pkt, rest') =>
                 {| rest := rest'; packet := Some pkt; codecCtx := codecCtx s;
                    lastTime := lastTime s; frameRate := frameRate s |}
             | (None, _) => s
             end in
    let '(e, evs) := loop ticks s in (inr e, msgs ++ evs).

Definition main (argv : list string) (plat : Platform) (disk : string -> Media)
    (ticks : list Tick) : option Z * list event :=
  let argc := Z.of_nat (length argv) in
  if negb (argc =? 2) then
    (Some 1,
     [EvStderr ("Usage: " ++ default EmptyString (argv !! 0%nat) ++ " <video_file>")%string])
  else if negb (glfw_init_ok plat) then (Some 1, [])
  else if negb (window_ok plat) then (Some 1, [])
  else
    match runPlayer plat (disk (default EmptyString (argv !! 1%nat))) ticks with
    | (inl c, evs) => (Some c, evs)
    | (inr StillRunning, evs) => (None, evs)
    | (inr _, evs) => (Some 0, evs)
    end.

End PlayerC.

(** ** Reading traces *)

Definition stage_eqb (a b : stage) : bool :=
  match a, b with
  | Video, Video | Audio, Audio => true
  | _, _ => false
  end.

Definition rendered_frame (e : event) : option AVFrame :=
  match e with EvRender f => Some f | _ => None end.

Definition received_frame (s : stage) (e : event) : option AVFrame :=
  match e with
  | EvReceive s' (Some f) => if stage_eqb s s' then Some f else None
  | _ => None
  end.

(** The frames presented, and the frames a stage handed out, in order. *)
Definition rendered (evs : list event) : list AVFrame := omap rendered_frame evs.

Definition received (s : stage) (evs : list event) : list AVFrame :=
  omap (received_frame s) evs.

(** The wall-clock time of every presentation: the value [glfwGetTime]
    returned in the iteration that rendered ([t] before the first one). *)
Fixpoint render_times (t : float) (evs : list event) : list float :=
  match evs with
  | [] => []
  | EvTime t' :: evs' => render_times t' evs'
  | EvRender _ :: evs' => t :: render_times t evs'
  | _ :: evs' => render_times t evs'
  end.

(** The drain discipline of a decode stage, read off a trace: every
    [avcodec_send_packet] to stage [s] finds the stage drained, that is, the
    last thing the caller learnt from it was that it holds no frame (a
    receive that yielded nothing, or a flush).  [drained] is what is known
    before the trace starts. *)
Fixpoint drains_before_send (s : stage) (drained : bool) (evs : list event) : bool :=
  match evs with
  | [] => true
  | EvSend s' :: evs' =>
      if stage_eqb s s' then drained && drains_before_send s false evs'
      else drains_before_send s drained evs'
  | EvReceive s' f :: evs' =>
      if stage_eqb s s'
      then drains_before_send s (match f with Some _ => false | None => true end) evs'
      else drains_before_send s drained evs'
  | EvFlush s' :: evs' =>
      if stage_eqb s s' then drains_before_send s true evs'
      else drains_before_send s drained evs'
  | _ :: evs' => drains_before_send s drained evs'
  end.

(** What is known of stage [s] after a trace. *)
Fixpoint drained_after (s : stage) (drained : bool) (evs : list event) : bool :=
  match evs with
  | [] => drained
  | EvSend s' :: evs' =>
      drained_after s (if stage_eqb s s' then false else drained) evs'
  | EvReceive s' f :: evs' =>
      drained_after s
        (if stage_eqb s s'
         then match f with Some _ => false | None => true end
         else drained) evs'
  | EvFlush s' :: evs' =>
      drained_after s (if stage_eqb s s' then true else drained) evs'
  | _ :: evs' => drained_after s drained evs'
  end.

Definition is_audio_call (e : event) : bool :=
  match e with
  | EvSend Audio | EvReceive Audio _ | EvFlush Audio | EvOpenAudio _ => true
  | _ => false
  end.

Definition is_stderr (e : event) : bool :=
  match e with EvStderr _ => true | _ => false end.

(** The comparison of presentation timestamps against elapsed time that the
    cadence test does not make: [now - anchor >= framePts - lastPresentedPts]. *)
Definition pts_due (framePts lastPresentedPts now anchor : float) : bool :=
  (framePts - lastPresentedPts <=? now - anchor)%float.

(** ** Sample inputs *)

Definition picture (n : Z) : AVFrame :=
  {| frame_pts := n; nb_samples := 0; nb_channels := 0; data0 := [] |}.

(** One stereo sample pair would be four bytes; this is one mono sample. *)
Definition beep : AVFrame :=
  {| frame_pts := 0; nb_samples := 1; nb_channels := 1; data0 := [x01; x02] |}.

Definition video_stream : AVStream :=
  {| codec_type := AVMEDIA_TYPE_VIDEO; time_base := (1, 1000);
     r_frame_rate := (30, 1); codec_found := true; codec_opens := true |}.

Definition audio_stream (decoder_opens : bool) : AVStream :=
  {| codec_type := AVMEDIA_TYPE_AUDIO; time_base := (1, 48000);
     r_frame_rate := (0, 1); codec_found := true; codec_opens := decoder_opens |}.

Definition video_packet (sec : Z) (key : bool) (fs : list AVFrame) : AVPacket :=
  {| stream_index := 0; pkt_time := sec * AV_TIME_BASE; pkt_key := key;
     pkt_decoded := fs |}.

Definition audio_packet (sec : Z) (fs : list AVFrame) : AVPacket :=
  {| stream_index := 1; pkt_time := sec * AV_TIME_BASE; pkt_key := true;
     pkt_decoded := fs |}.

(** Ten seconds of video, one packet and one frame per second, a sync point
    every four seconds; timestamps in milliseconds. *)
Definition clip : Media :=
  {| opens := true; has_stream_info := true; streams := [video_stream];
     media_duration := 10 * AV_TIME_BASE;
     packets :=
       (fun s => video_packet s (s mod 4 =? 0) [picture (s * 1000)])
         <$> [0; 1; 2; 3; 4; 5; 6; 7; 8; 9] |}.

(** A clip whose first packet unlocks two frames at once. *)
Definition burst_clip : Media :=
  {| opens := true; has_stream_info := true; streams := [video_stream];
     media_duration := 3 * AV_TIME_BASE;
     packets := [video_packet 0 true [picture 0; picture 500];
                 video_packet 1 false [picture 1000];
                 video_packet 2 false [picture 2000]] |}.

(** A clip with an audio stream; [decoder_opens] says whether the audio
    decoder can be opened. *)
Definition talkie (decoder_opens : bool) : Media :=
  {| opens := true; has_stream_info := true;
     streams := [video_stream; audio_stream decoder_opens];
     media_duration := 2 * AV_TIME_BASE;
     packets := [audio_packet 0 [beep]; video_packet 0 true [picture 0];
                 audio_packet 1 [beep]; video_packet 1 false [picture 1000]] |}.

(** A path that cannot be opened. *)
Definition missing : Media :=
  {| opens := false; has_stream_info := false; streams := [];
     media_duration := 0; packets := [] |}.

(** A clip whose video decoder does not open. *)
Definition undecodable : Media :=
  {| opens := true; has_stream_info := true;
     streams := [{| codec_type := AVMEDIA_TYPE_VIDEO; time_base := (1, 1000);
                    r_frame_rate := (30, 1); codec_found := true;
                    codec_opens := false |}];
     media_duration := AV_TIME_BASE;
     packets := [video_packet 0 true [picture 0]] |}.

Definition desktop : Platform :=
  {| sdl_init_ok := true; glfw_init_ok := true; window_ok := true;
     shaders_ok := true; program_links := true; audio_device_ok := true |}.

Definition tick (t : float) (moved : option float) : Tick :=
  {| should_close := false; now := t; slider := moved |}.

Definition close_tick : Tick :=
  {| should_close := true; now := 0; slider := None |}.

(** The user drags the slider to 50 % in the first pass; two more passes
    follow, 1/64 s apart. *)
Definition seek_ticks : list Tick :=
  [tick 0 (Some 50%float); tick 0.5 None; tick 0.515625 None].

(** The player with [m] opened and the loop about to start at time [t0]. *)
Definition opened (m : Media) (t0 : float) : Player :=
  set_last_video 0 (set_start t0 (snd (open_file m globals0))).

(** A buffer state for the examples: four bytes allocated, three of them
    valid, the first already consumed. *)
Definition sample_ring : AudioBuf :=
  {| audio_buf := [x01; x02; x03; x04]; audio_buf_size := 3; audio_buf_index := 1 |}.

(** ** Facts the proofs carry through the loops *)

(** What one run of the decode loop, started in [p], guarantees of its result
    [res] (the [got_video] flag, the packets left, the state, the calls). *)
Record decode_facts (p : Player)
    (res : bool * list AVPacket * Player * list event) : Prop := {
  df_rendered : rendered res.2 = [];
  df_received :
    received Video res.2 = if res.1.1.1 then [vframe res.1.2] else [];
  df_start : start res.1.2 = start p;
  df_last_video : last_video res.1.2 = last_video p;
  df_fmt : fmt res.1.2 = fmt p;
  df_seeking : seeking res.1.2 = seeking p;
  df_seek_target : seek_target res.1.2 = seek_target p;
  df_audio_drained :
    drains_before_send Audio true res.2 = true /\
    drained_after Audio true res.2 = true;
  df_no_stderr : forallb (negb ∘ is_stderr) res.2 = true;
  df_mute :
    adec p = None ->
    adec res.1.2 = None /\ audio res.1.2 = audio p /\
    forallb (negb ∘ is_audio_call) res.2 = true
}.

(** What the seek block guarantees of the state and calls it returns. *)
Record seek_facts (p : Player) (res : Player * list event) : Prop := {
  sf_rendered : rendered res.2 = [];
  sf_received : received Video res.2 = [];
  sf_last_video : last_video res.1 = last_video p;
  sf_audio_drained :
    drains_before_send Audio true res.2 = true /\
    drained_after Audio true res.2 = true;
  sf_no_stderr : forallb (negb ∘ is_stderr) res.2 = true;
  sf_mute :
    adec p = None ->
    adec res.1 = None /\ forallb (negb ∘ is_audio_call) res.2 = true
}.

(** What one pass through the loop body guarantees: [res] is the result of
    [iterate t p]. *)
Record iterate_facts (t : Tick) (p : Player)
    (res : bool * Player * list event) : Prop := {
  if_received :
    received Video res.2 = if res.1.1 then [vframe res.1.2] else [];
  if_rendered :
    rendered res.2 =
      if res.1.1 && present_gate (now t - start p) (last_video p)
      then [vframe res.1.2] else [];
  if_last_video :
    last_video res.1.2 =
      if res.1.1 && present_gate (now t - start p) (last_video p)
      then (now t - start p)%float else last_video p;
  if_audio_drained :
    drains_before_send Audio true res.2 = true /\
    drained_after Audio true res.2 = true;
  if_no_stderr : forallb (negb ∘ is_stderr) res.2 = true;
  if_mute :
    adec p = None ->
    adec res.1.2 = None /\ forallb (negb ∘ is_audio_call) res.2 = true
}.

(** The state every history of the ring buffer reaches: the two cursors
    coincide. *)
Definition cursors_meet (r : AudioBuf) : Prop :=
  audio_buf_index r = audio_buf_size r /\ 0 <= audio_buf_index r < 2 ^ 32.

Definition reachable_ring (r : AudioBuf) : Prop :=
  cursors_meet r /\ audio_buf_size r <= Z.of_nat (length (audio_buf r)).


(** ** Further readings of a trace *)

Definition read_packet (e : event) : option (option AVPacket) :=
  match e with EvRead pkt => Some pkt | _ => None end.

(** The results of the [av_read_frame] calls, in order. *)
Definition reads (evs : list event) : list (option AVPacket) := omap read_packet evs.

Definition is_open_audio (e : event) : bool :=
  match e with EvOpenAudio _ => true | _ => false end.

(** What a run of the decode loop does with the demuxer and the ring
    buffer: [rest] are the packets ahead when it starts, [res] its result. *)
Record decode_io (rest : list AVPacket) (p : Player)
    (res : bool * list AVPacket * Player * list event) : Prop := {
  dio_consumed :
    exists consumed,
      rest = consumed ++ res.1.1.2 /\
      reads res.2 = (Some <$> consumed) ++ (if res.1.1.1 then [] else [None]);
  dio_eof : res.1.1.1 = false -> res.1.1.2 = [];
  dio_audio :
    audio res.1.2 = foldl (flip push_audio_frame) (audio p) (received Audio res.2);
  dio_no_open_audio : forallb (negb ∘ is_open_audio) res.2 = true
}.

(** The packets [av_read_frame] delivered, in order. *)
Definition packets_read (evs : list event) : list AVPacket := omap id (reads evs).

(** Whether the slider was moved in a tick. *)
Definition slider_moved (t : Tick) : bool :=
  match slider t with Some _ => true | None => false end.

(** The index a first-match scan starting at index [i] leaves in a variable
    that holds [cur]: unchanged once it is non-negative, otherwise the index
    of the first element that satisfies [test]. *)
Fixpoint first_of (test : AVStream -> bool) (ss : list AVStream) (i cur : Z) : Z :=
  match ss with
  | [] => cur
  | st :: ss' => first_of test ss' (i + 1) (if test st && (cur <? 0) then i else cur)
  end.

(** Every frame video_player.c has still to present in state [s]: the
    frames pending in the decoder, then the frames of the packet in hand and
    of the packets ahead. *)
Definition frames_ahead (s : PlayerC.State) : list AVFrame :=
  PlayerC.codecCtx s
    ++ concat (pkt_decoded <$> (option_list (PlayerC.packet s) ++ PlayerC.rest s)).

(** ** The probe for a hardware decoder *)

Definition AV_CODEC_HW_CONFIG_METHOD_HW_DEVICE_CTX : Z := 1.
Definition AV_HWDEVICE_TYPE_NONE : Z := 0.

(** One entry of a decoder's hardware configurations. *)
Record AVCodecHWConfig := {
  methods : Z;
  device_type : Z
}.

(** The globals [hw_type] and [hw_device_ctx] (the type of the device it
    refers to, [None] for the null pointer) and the field [hw_device_ctx] of
    the decoder context. *)
Record HwState := {
  hw_type : Z;
  hw_device_ctx : option Z;
  ctx_hw_device_ctx : option Z
}.

Definition hw0 : HwState :=
  {| hw_type := AV_HWDEVICE_TYPE_NONE; hw_device_ctx := None;
     ctx_hw_device_ctx := None |}.

(** The test of lines 116 and 117. *)
Definition hw_usable (cfg : AVCodecHWConfig) : bool :=
  negb (Z.land (methods cfg) AV_CODEC_HW_CONFIG_METHOD_HW_DEVICE_CTX =? 0)
  && negb (device_type cfg =? AV_HWDEVICE_TYPE_NONE).

(** [init_hw_decoder(ctx)]: [cfgs] are the configurations
    [avcodec_get_hw_config] enumerates for the decoder and [creates] tells
    for which device types [av_hwdevice_ctx_create] succeeds (on failure it
    stores a null pointer).  The result is the return value and the state
    left. *)
Fixpoint init_hw_decoder (creates : Z -> bool) (cfgs : list AVCodecHWConfig)
    (s : HwState) : Z * HwState :=
  match cfgs with
  | [] => (-1, s)
  | cfg :: cfgs' =>
      if hw_usable cfg then
        if creates (device_type cfg) then
          (0, {| hw_type := device_type cfg;
                 hw_device_ctx := Some (device_type cfg);
                 ctx_hw_device_ctx := Some (device_type cfg) |})
        else
          init_hw_decoder creates cfgs'
            {| hw_type := device_type cfg; hw_device_ctx := None;
               ctx_hw_device_ctx := ctx_hw_device_ctx s |}
      else init_hw_decoder creates cfgs' s
  end.

(** ** Texture upload

    The part of the OpenGL state [upload_nv12] works on: the active texture
    unit, the texture bound to each unit, and the image of each texture. *)
Record Image := {
  img_width : Z;
  img_height : Z;
  img_rows : list (list byte)
}.

Record GLState := {
  gl_active : Z;
  gl_bound : Z -> Z;
  gl_image : Z -> option Image
}.

(** [glActiveTexture(GL_TEXTURE0 + unit)]. *)
Definition glActiveTexture (unit : Z) (s : GLState) : GLState :=
  {| gl_active := unit; gl_bound := gl_bound s; gl_image := gl_image s |}.

(** [glBindTexture(GL_TEXTURE_2D, name)]: binds to the active unit. *)
Definition glBindTexture (name : Z) (s : GLState) : GLState :=
  {| gl_active := gl_active s;
     gl_bound := fun u => if u =? gl_active s then name else gl_bound s u;
     gl_image := gl_image s |}.

(** The distance in bytes between two rows of [w] one-byte pixels in client
    memory, under the initial [GL_UNPACK_ALIGNMENT] of 4, which the player
    never changes. *)
Definition unpack_stride (w : Z) : Z := 4 * ((w + 3) / 4).

(** The rows [glTexImage2D] reads from client memory [mem]. *)
Definition read_rows (mem : list byte) (w h : Z) : list (list byte) :=
  (fun y => take (Z.to_nat w) (drop (Z.to_nat (y * unpack_stride w)) mem))
    <$> seqZ 0 h.

(** [glTexImage2D(GL_TEXTURE_2D, 0, GL_RED, w, h, 0, GL_RED, GL_UNSIGNED_BYTE,
    mem)]: defines the image of the texture bound to the active unit; a
    negative size is an error and changes nothing. *)
Definition glTexImage2D (w h : Z) (mem : list byte) (s : GLState) : GLState :=
  if (w <? 0) || (h <? 0) then s
  else
    let name := gl_bound s (gl_active s) in
    {| gl_active := gl_active s;
       gl_bound := gl_bound s;
       gl_image := fun n =>
         if n =? name
         then Some {| img_width := w; img_height := h; img_rows := read_rows mem w h |}
         else gl_image s n |}.

(** The texture names [glGenTextures] gave to [texY], [texU] and [texV]. *)
Record Textures := {
  texY : Z;
  texU : Z;
  texV : Z
}.

(** [upload_nv12(f, w, h)] for the frame [run] passes: [buf] is the buffer
    behind it, with [f->data[0] = buf] and [f->data[1] = buf + w * h] as
    [av_image_fill_arrays] set them up on line 291. *)
Definition upload_nv12 (tex : Textures) (buf : list byte) (w h : Z) (s : GLState)
  : GLState :=
  let plane0 := buf in
  let plane1 := drop (Z.to_nat (w * h)) buf in
  let s := glTexImage2D w h plane0 (glBindTexture (texY tex) (glActiveTexture 0 s)) in
  let s := glTexImage2D (Z.quot w 2) (Z.quot h 2) plane1
             (glBindTexture (texU tex) (glActiveTexture 1 s)) in
  glTexImage2D (Z.quot w 2) (Z.quot h 2) (drop 1 plane1)
    (glBindTexture (texV tex) (glActiveTexture 2 s)).

(** The texel at column [x] of row [y] of the image of texture [name]. *)
Definition texel (s : GLState) (name : Z) (x y : Z) : option byte :=
  if (x <? 0) || (y <? 0) then None
  else
    img ← gl_image s name;
    row ← img_rows img !! Z.to_nat y;
    row !! Z.to_nat x.

(** The byte at offset [k] of a buffer. *)
Definition byte_at (buf : list byte) (k : Z) : option byte :=
  if k <? 0 then None else buf !! Z.to_nat k.

(** The samples of an NV12 picture of even width [w] and height [h] stored
    in [buf] without padding: the luma plane, then one row of interleaved
    U and V samples for every two rows of luma. *)
Definition nv12_luma (buf : list byte) (w : Z) (x y : Z) : option byte :=
  byte_at buf (y * w + x).

Definition nv12_u (buf : list byte) (w h : Z) (cx cy : Z) : option byte :=
  byte_at buf (w * h + cy * w + 2 * cx).

Definition nv12_v (buf : list byte) (w h : Z) (cx cy : Z) : option byte :=
  byte_at buf (w * h + cy * w + 2 * cx + 1).


(** A picture of 8 by 4 pixels for the examples: 32 bytes of luma and 16 of
    chroma, the byte at offset [k] being [k]. *)
Definition sample_nv12 : list byte := omap Byte.of_nat (seq 0 48).

Definition sample_textures : Textures := {| texY := 1; texU := 2; texV := 3 |}.

(** The OpenGL state before any texture call. *)
Definition gl0 : GLState :=
  {| gl_active := 0; gl_bound := fun _ => 0; gl_image := fun _ => None |}.
(** * Properties *)

(** ** Integers and memory *)

Lemma uint32_small (z : Z) : 0 <= z < 2 ^ 32 -> uint32_t z = z.
Proof. intros H. unfold uint32_t. now apply Z.mod_small. Qed.

Lemma int_of_uint32_small (z : Z) : 0 <= z <= INT_MAX -> int_of_uint32 z = z.
Proof.
  intros H. unfold int_of_uint32.
  destruct (Z.leb_spec z INT_MAX); [reflexivity | lia].
Qed.

Lemma list_inserts_at {A} (i : nat) (k l : list A) :
  (i + length k <= length l)%nat ->
  list_inserts i k l = take i l ++ k ++ drop (i + length k) l.
Proof.
  intros H.
  rewrite <- (take_drop i l) at 1.
  assert (Hi : length (take i l) = i) by (rewrite length_take; lia).
  rewrite <- Hi at 1.
  rewrite <- (Nat.add_0_r (length (take i l))).
  rewrite list_inserts_app_r. f_equal.
  rewrite <- (take_drop (length k) (drop i l)).
  rewrite list_inserts_0_r.
  - now rewrite drop_drop.
  - rewrite length_take, length_drop. lia.
Qed.

Lemma SDL_memset_at (dst : list byte) (off n : Z) (c : byte) :
  0 <= off -> 0 <= n -> off + n <= Z.of_nat (length dst) ->
  SDL_memset dst off c n =
    take (Z.to_nat off) dst ++ replicate (Z.to_nat n) c
      ++ drop (Z.to_nat (off + n)) dst.
Proof.
  intros Ho Hn Hlen. unfold SDL_memset.
  rewrite list_inserts_at by (rewrite length_replicate; lia).
  rewrite length_replicate. now rewrite Z2Nat.inj_add by lia.
Qed.

Lemma SDL_memcpy_at (dst src : list byte) (off n : Z) :
  0 <= off -> 0 <= n -> off + n <= Z.of_nat (length src) ->
  n <= Z.of_nat (length dst) ->
  SDL_memcpy dst src off n =
    take (Z.to_nat n) (drop (Z.to_nat off) src) ++ drop (Z.to_nat n) dst.
Proof.
  intros Ho Hn Hsrc Hdst. unfold SDL_memcpy.
  assert (Hk : length (take (Z.to_nat n) (drop (Z.to_nat off) src)) = Z.to_nat n)
    by (rewrite length_take, length_drop; lia).
  rewrite list_inserts_at by (rewrite Hk; lia).
  now rewrite Hk.
Qed.

(** ** The consumer side of the ring buffer *)

(** C5: a pull of [len] bytes overwrites exactly the first [len] bytes of
    the stream: with the [min len (size - index)] bytes found at the read
    cursor, then zeros; on underrun with zeros only.  It always returns (the
    callback is a total function of the buffer state: it never waits) and
    advances the read cursor by the number of bytes copied. *)
Theorem C5_pull_fills_request (stream : list byte) (len : Z) (r : AudioBuf) :
  ring_wf r -> 0 <= len -> len <= Z.of_nat (length stream) ->
  audio_callback stream len r =
    (take (Z.to_nat (pull_copy len r)) (drop (Z.to_nat (audio_buf_index r)) (audio_buf r))
       ++ replicate (Z.to_nat (len - pull_copy len r)) x00
       ++ drop (Z.to_nat len) stream,
     {| audio_buf := audio_buf r;
        audio_buf_size := audio_buf_size r;
        audio_buf_index := audio_buf_index r + pull_copy len r |})
  /\ (audio_buf_size r <= audio_buf_index r ->
      fst (audio_callback stream len r) =
        replicate (Z.to_nat len) x00 ++ drop (Z.to_nat len) stream).
Proof.
  intros [Hi Hs Hspan Halloc] Hlen Hstream.
  unfold audio_callback, pull_copy.
  destruct (Z.leb_spec (audio_buf_size r) (audio_buf_index r)) as [Hu | Hd].
  - rewrite Z.max_l by lia. rewrite Z.min_r by lia.
    rewrite SDL_memset_at by lia. cbn [fst].
    rewrite Z.sub_0_r, Z.add_0_l, Z.add_0_r. cbn [Z.to_nat take app].
    split; [ | reflexivity ].
    destruct r; reflexivity.
  - split; [ | lia ].
    rewrite Z.max_r by lia.
    set (gap := audio_buf_size r - audio_buf_index r) in *.
    rewrite (uint32_small gap) by (unfold gap; lia).
    rewrite int_of_uint32_small by lia.
    assert (Hcopy : (if len <? gap then len else gap) = Z.min len gap).
    { destruct (Z.ltb_spec len gap); lia. }
    rewrite Hcopy. set (copy := Z.min len gap) in *.
    assert (Hc : 0 <= copy <= len) by (unfold copy; lia).
    rewrite uint32_small by (unfold copy, gap in *; lia).
    rewrite SDL_memcpy_at by (unfold copy, gap in *; lia).
    f_equal.
    set (chunk := take (Z.to_nat copy) (drop (Z.to_nat (audio_buf_index r)) (audio_buf r))).
    assert (Hchunk : length chunk = Z.to_nat copy).
    { unfold chunk. rewrite length_take, length_drop. unfold copy, gap in *. lia. }
    destruct (Z.ltb_spec copy len) as [Hlt | Hge].
    + rewrite SDL_memset_at;
        [ | lia | lia | rewrite length_app, length_drop; lia ].
      rewrite <- Hchunk at 1. rewrite take_app_length.
      f_equal. f_equal.
      replace (Z.to_nat (copy + (len - copy))) with (length chunk + Z.to_nat (len - copy))%nat by lia.
      rewrite drop_app_add, drop_drop. f_equal. lia.
    + assert (copy = len) by lia. subst copy.
      replace (len - Z.min len gap) with 0 by lia.
      cbn [Z.to_nat replicate app]. now rewrite H.
Qed.

(** C5 at [sample_ring]: two buffered bytes, one zero, the fourth byte of
    the stream untouched. *)
Lemma C5_pull_fills_request_witness :
  ring_wf sample_ring /\
  audio_callback [xff; xff; xff; xff] 3 sample_ring =
    ([x02; x03; x00; xff],
     {| audio_buf := [x01; x02; x03; x04]; audio_buf_size := 3; audio_buf_index := 3 |}).
Proof.
  assert (Hwf : ring_wf sample_ring) by (constructor; unfold INT_MAX; cbn; lia).
  split; [exact Hwf | ].
  exact (proj1 (C5_pull_fills_request [xff; xff; xff; xff] 3 sample_ring Hwf
                  ltac:(lia) ltac:(cbn; lia))).
Defined.

(** The consumer half of the cursor discipline: a pull never touches
    the buffer or the write cursor. *)
Lemma pull_keeps_buffer_and_size (stream : list byte) (len : Z) (r : AudioBuf) :
  audio_buf (snd (audio_callback stream len r)) = audio_buf r /\
  audio_buf_size (snd (audio_callback stream len r)) = audio_buf_size r.
Proof.
  unfold audio_callback.
  destruct (audio_buf_size r <=? audio_buf_index r); split; reflexivity.
Qed.

(** ** The producer side *)

(** The producer advances [audio_buf_index] by the size of the frame,
    whatever the state. *)
Lemma push_moves_index (f : AVFrame) (r : AudioBuf) :
  audio_buf_index (push_audio_frame f r) =
    uint32_t (audio_buf_index r + frame_bytes f).
Proof.
  unfold push_audio_frame, frame_bytes. cbn [audio_buf_index].
  destruct (_ <? _); reflexivity.
Qed.

Lemma uint32_range (z : Z) : 0 <= uint32_t z < 2 ^ 32.
Proof. unfold uint32_t. apply Z.mod_pos_bound. lia. Qed.

Lemma push_cursors_meet (f : AVFrame) (r : AudioBuf) :
  cursors_meet r -> cursors_meet (push_audio_frame f r).
Proof.
  intros [Heq Hr]. unfold cursors_meet, push_audio_frame.
  rewrite <- Heq, Z.sub_diag.
  set (bytes := nb_samples f * nb_channels f * 2).
  change (uint32_t 0) with 0.
  pose proof (uint32_range bytes) as Hb.
  pose proof (uint32_range (audio_buf_index r + bytes)) as Hs.
  destruct (Z.ltb_spec 0 (uint32_t bytes)) as [Hgrow | Hnone]; cbn.
  - split; [reflexivity | exact Hs].
  - assert (Hz : uint32_t bytes = 0) by lia.
    assert (Hsame : uint32_t (audio_buf_index r + bytes) = audio_buf_index r).
    { unfold uint32_t in *. rewrite Z.add_mod by lia. rewrite Hz, Z.add_0_r.
      rewrite Z.mod_mod by lia. now apply Z.mod_small. }
    rewrite Hsame. split; [exact Heq | exact Hr].
Qed.

Lemma pull_cursors_meet (stream : list byte) (len : Z) (r : AudioBuf) :
  cursors_meet r ->
  audio_callback stream len r = (SDL_memset stream 0 x00 len, r).
Proof.
  intros [Heq _]. unfold audio_callback.
  destruct (Z.leb_spec (audio_buf_size r) (audio_buf_index r)); [reflexivity | lia].
Qed.

Lemma ring_step_cursors_meet (r : AudioBuf) (op : ring_op) :
  cursors_meet r -> cursors_meet (ring_step r op).
Proof.
  intros H. destruct op as [f | stream len | ]; cbn.
  - now apply push_cursors_meet.
  - now rewrite pull_cursors_meet.
  - split; cbn; lia.
Qed.

Lemma ring_run_cursors_meet (ops : list ring_op) (r : AudioBuf) :
  cursors_meet r -> cursors_meet (ring_run ops r).
Proof.
  unfold ring_run. revert r.
  induction ops as [ | op ops IH]; intros r H; cbn; [exact H | ].
  apply IH. now apply ring_step_cursors_meet.
Qed.

(** X1: in a history of whole operations, where the callback never runs
    while a push is under way, a pull finds the cursors equal and delivers
    silence only, whatever was pushed, pulled or reset before.  Nothing is
    said of a callback that SDL runs between the growth of [audio_buf_size]
    and the advance of [audio_buf_index] inside a push: [run] takes no lock
    and such a callback finds [audio_buf_index] below [audio_buf_size]. *)
Lemma pull_after_any_history_is_silent
    (ops : list ring_op) (stream : list byte) (len : Z) :
  fst (audio_callback stream len (ring_run ops audio_init)) =
    SDL_memset stream 0 x00 len.
Proof.
  rewrite pull_cursors_meet; [reflexivity | ].
  apply ring_run_cursors_meet. split; cbn; lia.
Qed.

(** C1: two bytes are pushed into the reset buffer and three are pulled.  The
    consumer receives three zero bytes, not the two pushed bytes followed by
    one zero: the producer has moved [audio_buf_index] past its own data. *)
Theorem C1_pushed_bytes_never_reach_the_consumer :
  let r := ring_run [OpReset; OpPush beep] audio_init in
  r = {| audio_buf := [x01; x02]; audio_buf_size := 2; audio_buf_index := 2 |} /\
  fst (audio_callback [xff; xff; xff] 3 r) = [x00; x00; x00] /\
  fst (audio_callback [xff; xff; xff] 3 r) <> [x01; x02; x00].
Proof.
  cbn zeta. split; [reflexivity | ]. split; [reflexivity | ].
  vm_compute. discriminate.
Qed.

(** C2: a push from the initial state moves the read cursor
    [audio_buf_index] from 0 to 2, together with [audio_buf_size]. *)
Theorem C2_push_moves_the_read_cursor :
  audio_buf_index audio_init = 0 /\
  audio_buf_index (push_audio_frame beep audio_init) = 2 /\
  audio_buf_size (push_audio_frame beep audio_init) = 2 /\
  audio_buf (push_audio_frame beep audio_init) = [x01; x02].
Proof. repeat split; reflexivity. Qed.

Lemma copy_samples_length (n i : nat) (src : list byte) (off : nat) (buf : list byte) :
  length (copy_samples n i src off buf) = length buf.
Proof.
  revert i buf. induction n as [ | n IH]; intros i buf; cbn; [reflexivity | ].
  rewrite IH. unfold store16. now rewrite !length_insert.
Qed.

Lemma push_reachable (f : AVFrame) (r : AudioBuf) :
  reachable_ring r -> reachable_ring (push_audio_frame f r).
Proof.
  intros [Hm Ha]. split; [now apply push_cursors_meet | ].
  destruct Hm as [Heq Hr]. unfold push_audio_frame.
  rewrite <- Heq, Z.sub_diag. change (uint32_t 0) with 0.
  destruct (0 <? uint32_t _); cbn; rewrite copy_samples_length.
  - unfold av_realloc. rewrite length_resize.
    pose proof (uint32_range (audio_buf_index r + nb_samples f * nb_channels f * 2)).
    lia.
  - exact Ha.
Qed.

Lemma ring_step_reachable (r : AudioBuf) (op : ring_op) :
  reachable_ring r -> reachable_ring (ring_step r op).
Proof.
  intros H. destruct op as [f | stream len | ]; cbn.
  - now apply push_reachable.
  - destruct H as [Hm Ha]. now rewrite pull_cursors_meet.
  - split; [split; cbn; lia | cbn; lia].
Qed.

Lemma audio_init_reachable : reachable_ring audio_init.
Proof. repeat split; cbn; lia. Qed.

Lemma ring_run_reachable (ops : list ring_op) (r : AudioBuf) :
  reachable_ring r -> reachable_ring (ring_run ops r).
Proof.
  unfold ring_run. revert r.
  induction ops as [ | op ops IH]; intros r Hr; cbn; [exact Hr | ].
  apply IH. now apply ring_step_reachable.
Qed.

(** X9: every state a history of pushes, pulls and resets reaches from the
    initial one satisfies what [C5_pull_fills_request] asks of the buffer. *)
Lemma ring_run_wf (ops : list ring_op) : ring_wf (ring_run ops audio_init).
Proof.
  destruct (ring_run_reachable ops audio_init audio_init_reachable)
    as [[Heq Hr] Ha].
  constructor; unfold INT_MAX; lia.
Qed.

(** The sample copy loop is a block copy of [2 * n] bytes. *)
Lemma copy_samples_block (n : nat) :
  forall (i : nat) (src : list byte) (off : nat) (buf : list byte),
  (2 * (i + n) <= length src)%nat ->
  copy_samples n i src off buf =
    list_inserts (off + 2 * i) (take (2 * n) (drop (2 * i) src)) buf.
Proof.
  induction n as [ | n IH]; intros i src off buf Hsrc; [reflexivity | ].
  cbn [copy_samples]. rewrite IH by lia.
  destruct (lookup_lt_is_Some_2 src (2 * i)) as [a Ha]; [lia | ].
  destruct (lookup_lt_is_Some_2 src (S (2 * i))) as [b Hb]; [lia | ].
  rewrite (drop_S src a (2 * i) Ha), (drop_S src b (S (2 * i)) Hb).
  replace (2 * S n)%nat with (S (S (2 * n))) by lia.
  replace (2 * S i)%nat with (S (S (2 * i))) by lia.
  cbn [take list_inserts].
  unfold store16, load16. rewrite Ha, Hb. cbn [default fst snd].
  replace (off + S (S (2 * i)))%nat with (S (S (off + 2 * i))) by lia.
  rewrite <- !list_insert_inserts_lt by lia.
  apply list_insert_insert_ne. lia.
Qed.

(** On a state the player can reach, a push of a non-empty frame
    appends the frame's bytes after the valid bytes and leaves both cursors
    at the new end, so that nothing is left to read. *)
Lemma push_appends_and_skips (f : AVFrame) (r : AudioBuf) :
  reachable_ring r -> frame_ok f -> 0 < frame_bytes f ->
  audio_buf_size r + frame_bytes f < 2 ^ 32 ->
  push_audio_frame f r =
    {| audio_buf := take (Z.to_nat (audio_buf_size r)) (audio_buf r) ++ data0 f;
       audio_buf_size := audio_buf_size r + frame_bytes f;
       audio_buf_index := audio_buf_size r + frame_bytes f |}.
Proof.
  intros [[Heq Hr] Ha] (Hs & Hc & Hmax & Hlen) Hpos Hfit.
  unfold push_audio_frame, frame_bytes in *.
  set (bytes := nb_samples f * nb_channels f * 2) in *.
  rewrite Heq, Z.sub_diag. change (uint32_t 0) with 0.
  rewrite (uint32_small bytes) by (unfold INT_MAX in Hmax; lia).
  destruct (Z.ltb_spec 0 bytes) as [_ | ?]; [ | lia].
  cbn [audio_buf audio_buf_size audio_buf_index].
  rewrite uint32_small by lia. f_equal.
  rewrite copy_samples_block by lia.
  rewrite Nat.mul_0_r, Nat.add_0_r, drop_0.
  rewrite take_ge by lia.
  unfold av_realloc.
  set (size := Z.to_nat (audio_buf_size r)).
  replace (Z.to_nat (audio_buf_size r + bytes)) with (size + length (data0 f))%nat
    by lia.
  rewrite resize_add, resize_le by lia.
  assert (Hsz : length (take size (audio_buf r)) = size) by (rewrite length_take; lia).
  rewrite <- Hsz at 1. rewrite <- (Nat.add_0_r (length (take size (audio_buf r)))).
  rewrite list_inserts_app_r. f_equal.
  rewrite <- (app_nil_r (resize _ _ _)).
  rewrite list_inserts_0_r by now rewrite length_resize.
  apply app_nil_r.
Qed.

Lemma push_appends_and_skips_witness :
  push_audio_frame beep audio_init =
    {| audio_buf := [x01; x02]; audio_buf_size := 2; audio_buf_index := 2 |}.
Proof.
  apply (push_appends_and_skips beep audio_init audio_init_reachable).
  - unfold frame_ok, frame_bytes, INT_MAX. cbn. lia.
  - unfold frame_bytes. cbn. lia.
  - unfold frame_bytes. cbn. lia.
Defined.

(** ** Traces *)

Lemma rendered_app (e1 e2 : list event) :
  rendered (e1 ++ e2) = rendered e1 ++ rendered e2.
Proof. apply omap_app. Qed.

Lemma received_app (s : stage) (e1 e2 : list event) :
  received s (e1 ++ e2) = received s e1 ++ received s e2.
Proof. apply omap_app. Qed.

Lemma drains_before_send_app (s : stage) (e1 e2 : list event) (b : bool) :
  drains_before_send s b (e1 ++ e2) =
    drains_before_send s b e1 && drains_before_send s (drained_after s b e1) e2.
Proof.
  revert b. induction e1 as [ | e e1 IH]; intros b; [reflexivity | ].
  destruct e as [ | | s' | | s' | s' f | | | ]; cbn; try apply IH;
    destruct (stage_eqb s s'); rewrite ?IH; try reflexivity.
  now rewrite andb_assoc.
Qed.

Lemma drained_after_app (s : stage) (e1 e2 : list event) (b : bool) :
  drained_after s b (e1 ++ e2) = drained_after s (drained_after s b e1) e2.
Proof.
  revert b. induction e1 as [ | e e1 IH]; intros b; [reflexivity | ].
  destruct e; cbn; apply IH.
Qed.

(** ** The audio receive loop *)

Lemma drain_audio_unfold (d : AVCodecContext) (r : AudioBuf) :
  drain_audio d r =
    match avcodec_receive_frame d with
    | (Some f, d') =>
        let '(r', evs) := drain_audio d' (push_audio_frame f r) in
        (r', EvReceive Audio (Some f) :: evs)
    | (None, _) => (r, [EvReceive Audio None])
    end.
Proof. destruct d; reflexivity. Qed.

(** The audio receive loop hands every pending frame to the ring buffer and
    stops on the first call that yields none. *)
Lemma drain_audio_events (d : AVCodecContext) (r : AudioBuf) :
  (drain_audio d r).2 = (EvReceive Audio ∘ Some <$> d) ++ [EvReceive Audio None]
  /\ (drain_audio d r).1 = foldl (flip push_audio_frame) r d.
Proof.
  revert r. induction d as [ | f d IH]; intros r; cbn; [now split | ].
  specialize (IH (push_audio_frame f r)).
  destruct (drain_audio d (push_audio_frame f r)) as [r' evs]; cbn in *.
  destruct IH as [-> ->]. now split.
Qed.

Lemma drain_audio_trace (d : AVCodecContext) (r : AudioBuf) (b : bool) :
  let evs := (drain_audio d r).2 in
  rendered evs = [] /\ received Video evs = [] /\
  drains_before_send Audio b evs = true /\ drained_after Audio b evs = true /\
  drains_before_send Video b evs = true /\ drained_after Video b evs = b /\
  forallb (negb ∘ is_stderr) evs = true.
Proof.
  cbn zeta. revert r b. induction d as [ | f d IH]; intros r b; cbn.
  - repeat split; reflexivity.
  - specialize (IH (push_audio_frame f r)).
    destruct (drain_audio d (push_audio_frame f r)) as [r' evs]; cbn in *.
    destruct (IH false) as (H1 & H2 & H3 & H4 & _ & _ & H7).
    destruct (IH b) as (_ & _ & _ & _ & H5 & H6 & _).
    repeat split; assumption.
Qed.

(** ** The decode loop *)

Lemma audio_decoder_for_None (pkt : AVPacket) (p : Player) :
  adec p = None -> audio_decoder_for pkt p = None.
Proof. intros H. unfold audio_decoder_for. rewrite H. now destruct (_ && _). Qed.

Lemma decode_loop_facts (rest : list AVPacket) (p : Player) :
  decode_facts p (decode_loop rest p).
Proof.
  revert p. induction rest as [ | pkt rest IH]; intros p.
  - constructor; cbn; auto.
  - cbn [decode_loop].
    destruct (stream_index pkt =? vidx p).
    + destruct (avcodec_receive_frame (avcodec_send_packet (vdec p) pkt))
        as [[f | ] d].
      * constructor; cbn; auto.
      * specialize (IH (set_vdec d p)).
        destruct (decode_loop rest (set_vdec d p)) as [[[g rest'] p'] evs].
        destruct IH as [R1 R2 R3 R4 R5 R6 R7 [R8 R8'] R9 R10]; cbn in *.
        constructor; cbn; auto.
    + destruct (audio_decoder_for pkt p) as [d | ] eqn:Hd.
      * pose proof (drain_audio_trace (avcodec_send_packet d pkt) (audio p)) as Hdrain.
        destruct (drain_audio (avcodec_send_packet d pkt) (audio p)) as [r drained].
        cbn zeta in Hdrain. cbn [snd] in Hdrain.
        destruct (Hdrain false) as (D1 & D2 & D3 & D4 & _ & _ & D7).
        specialize (IH (set_audio r (set_adec (Some []) p))).
        destruct (decode_loop rest (set_audio r (set_adec (Some []) p)))
          as [[[g rest'] p'] evs].
        destruct IH as [R1 R2 R3 R4 R5 R6 R7 [R8 R8'] R9 R10]; cbn in *.
        unfold rendered, received in *.
        constructor; cbn.
        -- now rewrite omap_app, D1, R1.
        -- now rewrite omap_app, D2, R2.
        -- assumption.
        -- assumption.
        -- assumption.
        -- assumption.
        -- assumption.
        -- rewrite drains_before_send_app, drained_after_app, D3, D4. now split.
        -- rewrite forallb_app, D7. assumption.
        -- intros Hmute. rewrite (audio_decoder_for_None pkt p Hmute) in Hd.
           discriminate.
      * specialize (IH p).
        destruct (decode_loop rest p) as [[[g rest'] p'] evs].
        destruct IH as [R1 R2 R3 R4 R5 R6 R7 [R8 R8'] R9 R10]; cbn in *.
        constructor; cbn; auto.
Qed.

(** ** The seek block and the loop body *)

Lemma seek_block_facts (t : float) (p : Player) : seek_facts p (seek_block t p).
Proof.
  unfold seek_block. destruct (seeking p).
  - constructor; cbn; destruct (adec p); done.
  - constructor; cbn; done.
Qed.

Lemma imgui_controls_keeps (moved : option float) (p : Player) :
  vframe (imgui_controls moved p) = vframe p /\
  last_video (imgui_controls moved p) = last_video p /\
  adec (imgui_controls moved p) = adec p /\
  start (imgui_controls moved p) = start p.
Proof. destruct moved; repeat split; reflexivity. Qed.

Ltac trace_simpl :=
  cbn -[present_gate];
  rewrite ?omap_app, ?drains_before_send_app, ?drained_after_app, ?forallb_app;
  cbn -[present_gate].

Lemma iterate_facts_hold (t : Tick) (p : Player) : iterate_facts t p (iterate t p).
Proof.
  unfold iterate.
  pose proof (seek_block_facts (now t) p) as Hs.
  destruct (seek_block (now t) p) as [p1 ev_seek].
  destruct Hs as [S1 S2 S3 [S4 S4'] S5 S6]; cbn [fst snd] in *.
  pose proof (decode_loop_facts (fmt_rest (fmt p1)) p1) as Hd.
  destruct (decode_loop (fmt_rest (fmt p1)) p1) as [[[got rest] p2] ev_decode].
  destruct Hd as [D1 D2 D3 D4 D5 D6 D7 [D8 D8'] D9 D10]; cbn [fst snd] in *.
  unfold rendered, received in *.
  assert (Hmute : adec p = None ->
            adec p2 = None /\
            forallb (negb ∘ is_audio_call) ev_seek = true /\
            forallb (negb ∘ is_audio_call) ev_decode = true).
  { intros Hm. destruct (S6 Hm) as [M1 M2]. destruct (D10 M1) as (M3 & _ & M5).
    now repeat split. }
  destruct got; cbn [negb andb].
  - change (last_video (set_fmt (with_rest rest (fmt p2)) p2)) with (last_video p2).
    rewrite D4, S3.
    destruct (present_gate (now t - start p) (last_video p)) eqn:Hgate.
    + destruct (imgui_controls_keeps (slider t)
          (set_last_video (now t - start p)
             (set_fmt (with_rest rest (fmt p2)) p2))) as (J1 & J2 & J3 & J4).
      constructor; cbn [fst snd andb]; rewrite ?J1, ?J2, ?J3; trace_simpl;
        rewrite ?Hgate, ?S1, ?S2, ?D1, ?D2, ?S4, ?S4', ?D8, ?D8', ?S5, ?D9;
        try done.
      intros Hm. destruct (Hmute Hm) as (M1 & -> & ->). now split.
    + destruct (imgui_controls_keeps (slider t)
          (set_fmt (with_rest rest (fmt p2)) p2)) as (J1 & J2 & J3 & J4).
      constructor; cbn [fst snd andb]; rewrite ?J1, ?J2, ?J3; trace_simpl;
        rewrite ?Hgate, ?D4, ?S3, ?S1, ?S2, ?D1, ?D2, ?S4, ?S4', ?D8, ?D8', ?S5, ?D9;
        try done.
      intros Hm. destruct (Hmute Hm) as (M1 & -> & ->). now split.
  - constructor; cbn [fst snd andb]; trace_simpl;
      rewrite ?D4, ?S3, ?S1, ?S2, ?D1, ?D2, ?S4, ?S4', ?D8, ?D8', ?S5, ?D9;
      try done.
    intros Hm. destruct (Hmute Hm) as (M1 & -> & ->). now split.
Qed.

(** ** The main loop *)

Lemma main_loop_facts (ticks : list Tick) (p : Player) :
  let res := main_loop ticks p in
  sublist (rendered res.2) (received Video res.2) /\
  (drains_before_send Audio true res.2 = true /\
   drained_after Audio true res.2 = true) /\
  forallb (negb ∘ is_stderr) res.2 = true /\
  (adec p = None ->
   adec res.1.2 = None /\ forallb (negb ∘ is_audio_call) res.2 = true).
Proof.
  cbn zeta. revert p. induction ticks as [ | t ticks IH]; intros p.
  - cbn. repeat split; auto.
  - cbn [main_loop]. destruct (should_close t).
    { cbn. repeat split; auto. }
    pose proof (iterate_facts_hold t p) as Hi.
    destruct (iterate t p) as [[go p1] evs].
    destruct Hi as [I1 I2 I3 [I4 I4'] I5 I6]; cbn [fst snd] in *.
    assert (Hsub : sublist (rendered evs) (received Video evs)).
    { rewrite I1, I2. destruct go; cbn [andb]; [ | constructor].
      destruct (present_gate _ _); [reflexivity | apply sublist_nil_l]. }
    destruct go.
    + specialize (IH p1).
      destruct (main_loop ticks p1) as [[e p2] evs']; cbn [fst snd] in *.
      destruct IH as (H1 & [H2 H2'] & H3 & H4).
      rewrite rendered_app, received_app, drains_before_send_app,
        drained_after_app, !forallb_app, I4, I4', I5, H2, H2', H3.
      split; [now apply sublist_app | ].
      split; [now split | ]. split; [reflexivity | ].
      intros Hm. destruct (I6 Hm) as [M1 ->]. destruct (H4 M1) as [M2 ->].
      now split.
    + cbn [fst snd]. split; [exact Hsub | ].
      split; [now split | ]. split; [exact I5 | exact I6].
Qed.

(** X5: the audio path keeps the drain discipline in every run of the loop:
    each packet sent to the audio decoder finds it drained. *)
Lemma audio_stage_is_drained_before_each_send (ticks : list Tick) (p : Player) :
  drains_before_send Audio true (main_loop ticks p).2 = true.
Proof. exact (proj1 (proj1 (proj2 (main_loop_facts ticks p)))). Qed.

(** ** Presentation *)

(** C4 (amended): in a pass that decoded a video frame, the frame is
    presented exactly when [(now - start) - last_video >= 1/30] holds in
    double arithmetic, [last_video] being the value of [now - start] stored
    at the previous presentation (0 at first).  The decision is a function
    of [now], [start] and [last_video] only: the presentation timestamp of
    the frame takes no part in it. *)
Theorem C4_presentation_is_gated_by_cadence_alone
    (t : Tick) (p p' : Player) (evs : list event) :
  iterate t p = (true, p', evs) ->
  received Video evs = [vframe p'] /\
  rendered evs =
    if present_gate (now t - start p) (last_video p) then [vframe p'] else [].
Proof.
  intros H. pose proof (iterate_facts_hold t p) as [I1 I2 _ _ _ _].
  rewrite H in I1, I2. cbn [fst snd andb] in *. now split.
Qed.

(** C4 (amended) at the first frame of [clip], half a second in. *)
Lemma C4_presentation_is_gated_by_cadence_alone_witness :
  received Video (iterate (tick 0.5 None) (opened clip 0)).2 =
    [vframe (iterate (tick 0.5 None) (opened clip 0)).1.2] /\
  rendered (iterate (tick 0.5 None) (opened clip 0)).2 =
    if present_gate (0.5 - 0) 0
    then [vframe (iterate (tick 0.5 None) (opened clip 0)).1.2] else [].
Proof.
  apply (C4_presentation_is_gated_by_cadence_alone
           (tick 0.5 None) (opened clip 0)).
  vm_compute. reflexivity.
Defined.

(** C4, the claim as stated fails: the first frame of this clip carries the
    timestamp 100 s and arrives when half a second has elapsed, so
    [now - anchor >= framePts - lastPresentedPts] is false; the frame is
    presented all the same. *)
Lemma C4_counterexample_late_timestamp_is_presented :
  let far := {| opens := true; has_stream_info := true; streams := [video_stream];
                media_duration := 200 * AV_TIME_BASE;
                packets := [video_packet 0 true [picture 100000]] |} in
  let p := opened far 0 in
  let res := iterate (tick 0.5 None) p in
  pts p = 0%float /\ pts res.1.2 = 100%float /\
  pts_due (pts res.1.2) (pts p) 0.5 (start p) = false /\
  rendered res.2 = [picture 100000].
Proof. vm_compute. repeat split; reflexivity. Qed.

(** X10: [last_video] always holds the value of [now - start] of the latest
    presentation: a pass stores it exactly when it presents a frame. *)
Lemma last_video_tracks_presentations (t : Tick) (p : Player) :
  last_video (iterate t p).1.2 =
    if (iterate t p).1.1 && present_gate (now t - start p) (last_video p)
    then (now t - start p)%float else last_video p.
Proof. exact (if_last_video _ _ _ (iterate_facts_hold t p)). Qed.

(** A pass that reaches the presentation test has received exactly one
    video frame, and whatever the pass presents is that frame: a frame the
    test rejects is not kept for a later pass.  Over a whole run the
    presented frames are a subsequence of the decoded frames. *)
Lemma presented_frames_are_decoded_frames (ticks : list Tick) (p : Player) :
  (forall t p' evs,
      iterate t p = (true, p', evs) ->
      received Video evs = [vframe p'] /\
      sublist (rendered evs) [vframe p']) /\
  sublist (rendered (main_loop ticks p).2) (received Video (main_loop ticks p).2).
Proof.
  split.
  - intros t p' evs H.
    pose proof (iterate_facts_hold t p) as [I1 I2 _ _ _ _].
    rewrite H in I1, I2. cbn [fst snd andb] in *.
    rewrite I1, I2. split; [reflexivity | ].
    destruct (present_gate _ _); [reflexivity | apply sublist_nil_l].
  - exact (proj1 (main_loop_facts ticks p)).
Qed.

(** The pass over [clip] at time 0.5 receives one frame and presents it. *)
Lemma presented_frames_are_decoded_frames_witness :
  let res := iterate (tick 0.5 None) (opened clip 0) in
  received Video res.2 = [vframe res.1.2] /\
  sublist (rendered res.2) [vframe res.1.2].
Proof.
  apply (proj1 (presented_frames_are_decoded_frames [] (opened clip 0))
           (tick 0.5 None)).
  vm_compute. reflexivity.
Defined.

(** C10: after a forward seek a frame decoded less than 1/30 s of wall-clock
    time after the last presentation is presented, not discarded.  The
    slider is moved to 50 % in the first pass; the pass at wall-clock time
    0.5 presents a frame; the pass at 0.515625, 1/64 s later, receives one
    frame and presents it as well. *)
Theorem C10_frame_within_the_cap_is_presented :
  let before := main_loop [tick 0 (Some 50%float); tick 0.5 None] (opened clip 0) in
  let pass := iterate (tick 0.515625 None) before.1.2 in
  render_times 0 before.2 = [0.5%float] /\
  (0.515625 - 0.5 <? 1.0 / 30.0)%float = true /\
  received Video pass.2 = [picture 9000] /\
  rendered pass.2 = [picture 9000].
Proof. vm_compute. repeat split; reflexivity. Qed.

(** C9: the slider is moved to 50 % in the first pass; the passes at
    wall-clock times 0.5 and 0.515625 both present a frame, 1/64 s apart. *)
Theorem C9_forward_seek_breaks_the_cadence_cap :
  let res := run desktop clip 0 seek_ticks in
  render_times 0 res.2 = [0.5%float; 0.515625%float] /\
  rendered res.2 = [picture 8000; picture 9000] /\
  (0.515625 - 0.5 <? 1.0 / 30.0)%float = true.
Proof. vm_compute. repeat split; reflexivity. Qed.

(** ** Seeking *)

(** What the loop does with an armed seek, whatever the target: before any
    packet is read it asks the demuxer for the position
    [seek_target * AV_TIME_BASE] (a 64-bit product) with the backward flag,
    flushes the video
    decoder and the audio decoder if there is one, sets [start] so that
    [now - start] is [seek_target / 1000000] seconds, clears the flag and
    zeroes both cursors of the ring buffer. *)
Lemma seek_block_when_armed (t : float) (target : Z) (p : Player) :
  let res := seek_block t (set_seek true target p) in
  res.2 = EvSeek (-1) (int64_t (target * AV_TIME_BASE)) AVSEEK_FLAG_BACKWARD
            :: EvFlush Video
            :: match adec p with Some _ => [EvFlush Audio] | None => [] end /\
  fmt res.1 = av_seek_frame (fmt p) (int64_t (target * AV_TIME_BASE)) /\
  vdec res.1 = [] /\
  adec res.1 = (fun _ => []) <$> adec p /\
  start res.1 = (t - double_of_int64 target / 1000000.0)%float /\
  seeking res.1 = false /\
  audio_buf_index (audio res.1) = 0 /\ audio_buf_size (audio res.1) = 0.
Proof. cbn. repeat split; reflexivity. Qed.

Lemma seek_block_when_idle (t : float) (p : Player) :
  seeking p = false -> seek_block t p = (p, []).
Proof. intros H. unfold seek_block. now rewrite H. Qed.

Lemma decode_loop_reads_first (rest : list AVPacket) (p : Player) :
  exists later, (decode_loop rest p).2 = EvRead (head rest) :: later.
Proof.
  destruct rest as [ | pkt rest]; cbn [decode_loop]; [now eexists | ].
  destruct (stream_index pkt =? vidx p).
  - destruct (avcodec_receive_frame _) as [[f | ] d]; [now eexists | ].
    destruct (decode_loop rest _) as [[[g r] q] evs]. now eexists.
  - destruct (audio_decoder_for pkt p) as [d | ].
    + destruct (drain_audio _ _) as [r drained].
      destruct (decode_loop rest _) as [[[g r'] q] evs]. now eexists.
    + destruct (decode_loop rest _) as [[[g r'] q] evs]. now eexists.
Qed.

(** X8: the seek block comes first in a pass: its calls precede the first read,
    and that read takes the packet at the position the seek left. *)
Lemma iterate_seeks_before_reading (t : Tick) (p : Player) :
  exists later,
    (iterate t p).2 =
      EvTime (now t) :: (seek_block (now t) p).2
        ++ EvRead (head (fmt_rest (fmt (seek_block (now t) p).1))) :: later.
Proof.
  unfold iterate.
  destruct (seek_block (now t) p) as [p1 ev_seek]; cbn [fst snd].
  destruct (decode_loop_reads_first (fmt_rest (fmt p1)) p1) as [later Hl].
  destruct (decode_loop (fmt_rest (fmt p1)) p1) as [[[got rest] p2] ev_decode].
  cbn [fst snd] in *. subst ev_decode.
  destruct got; cbn [negb andb].
  - destruct (present_gate _ _); cbn [snd]; eexists;
      rewrite <- !app_comm_cons; reflexivity.
  - cbn [snd]. now eexists.
Qed.

(** C3: the slider is moved to 50 % of a ten-second clip, which arms a seek
    to 5,000,000 microseconds.  The seek block rebases the clock to 5 s but
    asks the demuxer for position 5,000,000 * AV_TIME_BASE: reading resumes
    at the sync point at 8 s, the last of the file, not at the sync point
    at 4 s that precedes the target. *)
Theorem C3_seek_repositions_at_the_scaled_target :
  let armed := (iterate (tick 0 (Some 50%float)) (opened clip 0)).1.2 in
  let res := seek_block 0.5 armed in
  (seeking armed = true /\ seek_target armed = 5000000) /\
  res.2 = [EvSeek (-1) 5000000000000 AVSEEK_FLAG_BACKWARD; EvFlush Video] /\
  pkt_time <$> head (fmt_rest (fmt res.1)) = Some 8000000 /\
  pkt_time <$> (seek_backward 5000000 (packets clip) ≫= head) = Some 4000000 /\
  (0.5 - start res.1)%float = 5%float /\
  seeking res.1 = false /\
  audio_buf_index (audio res.1) = 0 /\ audio_buf_size (audio res.1) = 0.
Proof. vm_compute. repeat split; reflexivity. Qed.

(** ** Draining the decode stages *)

(** C6: the first packet of this clip unlocks two frames.  The video path
    receives one of them and, in the next pass, sends the second packet
    while the other frame is still pending; after two passes a frame
    remains in the decoder. *)
Theorem C6_video_stage_is_not_drained :
  let res := run desktop burst_clip 0 [tick 0 None; tick 0.5 None] in
  res.2 =
    [EvTime 0;
     EvRead (Some (video_packet 0 true [picture 0; picture 500]));
     EvSend Video; EvReceive Video (Some (picture 0));
     EvTime 0.5;
     EvRead (Some (video_packet 1 false [picture 1000]));
     EvSend Video; EvReceive Video (Some (picture 500));
     EvRender (picture 500)] /\
  drains_before_send Video true res.2 = false /\
  drains_before_send Audio true res.2 = true /\
  vdec res.1.2 = [picture 1000].
Proof. vm_compute. repeat split; reflexivity. Qed.

(** ** Exit status *)

(** C7: with a path that cannot be opened, [main] of video_player.cpp
    reports the failure and returns 0; [main] of video_player.c exits
    with 1. *)
Theorem C7_unopenable_file_exits_with_zero
    (prog path : string) (t0 : float) (ticks : list Tick) :
  main [prog; path] desktop (fun _ => missing) t0 ticks =
    (Some 0, [EvStderr "Failed to open file"]) /\
  PlayerC.main [prog; path] desktop (fun _ => missing) ticks =
    (Some 1, [EvStderr "Could not open video file"]).
Proof. split; reflexivity. Qed.

(** X6: the exit status 1 of video_player.cpp: exactly the four early
    returns of [main]. *)
Lemma main_returns_one (argv : list string) (plat : Platform)
    (disk : string -> Media) (t0 : float) (ticks : list Tick) :
  (main argv plat disk t0 ticks).1 = Some 1 <->
  length argv <> 2%nat \/ sdl_init_ok plat = false \/
  glfw_init_ok plat = false \/ window_ok plat = false.
Proof.
  unfold main.
  destruct (Z.eqb_spec (Z.of_nat (length argv)) 2) as [Hargc | Hargc]; cbn [negb].
  2: { split; [intros _; left; lia | reflexivity]. }
  destruct (sdl_init_ok plat); cbn [negb]; [ | split; [tauto | reflexivity]].
  destruct (glfw_init_ok plat); cbn [negb]; [ | split; [tauto | reflexivity]].
  destruct (window_ok plat); cbn [negb]; [ | split; [tauto | reflexivity]].
  destruct (run plat _ t0 ticks) as [[e g] evs].
  destruct e as [ | [ | | ]]; cbn; split; try discriminate;
    intros [H | [H | [H | H]]]; try discriminate; lia.
Qed.

(** Once the window exists, the only exit status is 0, reached when the loop
    has been left or the file failed to open. *)
Lemma main_returns_zero (prog path : string) (plat : Platform)
    (disk : string -> Media) (t0 : float) (ticks : list Tick) :
  sdl_init_ok plat = true -> glfw_init_ok plat = true -> window_ok plat = true ->
  (main [prog; path] plat disk t0 ticks).1 =
    match (run plat (disk path) t0 ticks).1.1 with
    | Ended StillRunning => None
    | _ => Some 0
    end.
Proof.
  intros H1 H2 H3. unfold main. cbn [length Z.of_nat negb Z.eqb Pos.of_succ_nat].
  rewrite H1, H2, H3. cbn.
  destruct (run plat (disk path) t0 ticks) as [[e g] evs].
  destruct e as [ | [ | | ]]; reflexivity.
Qed.

(** ** Opening the decoders *)

(** C8 (amended): for a container whose video stream has a decoder: when
    that decoder does not open, [run] gives up at once: it reports the
    failure on standard error and reads no packet.  When the decoder of the
    audio stream is missing or does not open, the session is not aborted:
    [open_file] succeeds with [adec] null, [run] is the main loop on the
    opened state, nothing is reported and no audio call is ever made. *)
Theorem C8_video_decoder_failure_aborts_audio_failure_is_survived
    (plat : Platform) (m : Media) (t0 : float) (ticks : list Tick) (v a : Z) :
  opens m = true -> has_stream_info m = true ->
  select_streams (streams m) 0 (-1) (-1) = (v, a) -> 0 <= v ->
  codec_found_at m v = true ->
  (codec_opens_at m v = false ->
     (run plat m t0 ticks).1.1 = OpenFailed /\
     (run plat m t0 ticks).2 = [EvStderr "Failed to open file"]) /\
  (codec_opens_at m v = true -> 0 <= a -> codec_opens_at m a = false ->
     (open_file m globals0).1 = 0 /\
     adec (opened m t0) = None /\
     run plat m t0 ticks =
       (let '(e, p, evs) := main_loop ticks (opened m t0) in (Ended e, p, evs)) /\
     adec (run plat m t0 ticks).1.2 = None /\
     forallb (negb ∘ is_stderr) (run plat m t0 ticks).2 = true /\
     forallb (negb ∘ is_audio_call) (run plat m t0 ticks).2 = true).
Proof.
  intros Ho Hi Hsel Hv _.
  assert (Hvb : (v <? 0) = false) by (apply Z.ltb_ge; lia).
  split.
  - intros Hfail. unfold run, open_file.
    rewrite Ho, Hi. cbn [negb vidx aidx set_fmt globals0].
    rewrite Hsel, Hvb, Hfail. cbn. now split.
  - intros Hok Ha Hfail.
    assert (Hab : (0 <=? a) = true) by (apply Z.leb_le; lia).
    assert (Hopen : open_file m globals0 =
              (0, set_vframe av_frame_alloc
                    (set_adec None
                       (set_vdec []
                          (set_duration (double_of_int64 (media_duration m) * 1e-6)%float
                             (set_streams v a
                                (set_fmt {| fmt_media := m; fmt_rest := packets m |}
                                   globals0))))))).
    { unfold open_file. rewrite Ho, Hi. cbn [negb vidx aidx set_fmt globals0].
      now rewrite Hsel, Hvb, Hok, Hab, Hfail. }
    assert (Hadec : adec (opened m t0) = None).
    { unfold opened. now rewrite Hopen. }
    assert (Hrun : run plat m t0 ticks =
              (let '(e, p, evs) := main_loop ticks (opened m t0) in (Ended e, p, evs))).
    { unfold run, opened. rewrite Hopen. cbn -[main_loop].
      destruct (main_loop ticks _) as [[e p] evs]. reflexivity. }
    split; [now rewrite Hopen | ]. split; [exact Hadec | ].
    split; [exact Hrun | ].
    rewrite Hrun.
    pose proof (main_loop_facts ticks (opened m t0)) as (_ & _ & Hq & Hm).
    destruct (Hm Hadec) as [M1 M2].
    destruct (main_loop ticks (opened m t0)) as [[e p] evs].
    cbn [fst snd] in *. now repeat split.
Qed.

(** C8 (amended) at a clip whose video decoder does not open and at a clip
    whose audio decoder does not open. *)
Lemma C8_video_decoder_failure_aborts_audio_failure_is_survived_witness :
  (run desktop undecodable 0 [tick 0 None]).1.1 = OpenFailed /\
  adec (run desktop (talkie false) 0 [tick 0 None]).1.2 = None.
Proof.
  split.
  - apply (C8_video_decoder_failure_aborts_audio_failure_is_survived
             desktop undecodable 0 [tick 0 None] 0 (-1)
             eq_refl eq_refl eq_refl ltac:(lia) eq_refl).
    reflexivity.
  - apply (C8_video_decoder_failure_aborts_audio_failure_is_survived
             desktop (talkie false) 0 [tick 0 None] 0 1
             eq_refl eq_refl eq_refl ltac:(lia) eq_refl).
    + reflexivity.
    + lia.
    + reflexivity.
Defined.

(** C8, the claim as stated fails for the audio stream: its decoder does not
    open, [open_file] returns 0 all the same, and the session plays the
    video to the end of the observed run without any report; [main]
    returns 0. *)
Lemma C8_counterexample_audio_decoder_failure_is_survived :
  let ticks := [tick 0 None; tick 0.5 None; close_tick] in
  let res := run desktop (talkie false) 0 ticks in
  codec_opens_at (talkie false) 1 = false /\
  (open_file (talkie false) globals0).1 = 0 /\
  res.1.1 = Ended WindowClosed /\
  adec res.1.2 = None /\
  rendered res.2 = [picture 1000] /\
  forallb (negb ∘ is_stderr) res.2 = true /\
  (main ["player"; "talkie"]%string desktop (fun _ => talkie false) 0 ticks).1 = Some 0.
Proof. vm_compute. repeat split; reflexivity. Qed.

(** ** Reading order and audio routing *)

Lemma reads_app (e1 e2 : list event) : reads (e1 ++ e2) = reads e1 ++ reads e2.
Proof. apply omap_app. Qed.

Lemma drain_audio_io (d : AVCodecContext) (r : AudioBuf) :
  reads (drain_audio d r).2 = [] /\
  received Audio (drain_audio d r).2 = d /\
  forallb (negb ∘ is_open_audio) (drain_audio d r).2 = true.
Proof.
  destruct (drain_audio_events d r) as [-> _].
  induction d as [ | f d IH]; [now repeat split | ].
  destruct IH as (H1 & H2 & H3). cbn in *. unfold reads, received in *.
  repeat split; [exact H1 | now f_equal | exact H3].
Qed.

Lemma decode_loop_io (rest : list AVPacket) (p : Player) :
  decode_io rest p (decode_loop rest p).
Proof.
  revert p. induction rest as [ | pkt rest IH]; intros p.
  - constructor; cbn; auto. now exists [].
  - cbn [decode_loop].
    destruct (stream_index pkt =? vidx p).
    + destruct (avcodec_receive_frame (avcodec_send_packet (vdec p) pkt))
        as [[f | ] d].
      * constructor; cbn; auto; [ | discriminate]. now exists [pkt].
      * specialize (IH (set_vdec d p)).
        destruct (decode_loop rest (set_vdec d p)) as [[[g rest'] p'] evs].
        destruct IH as [(consumed & R1 & R2) R3 R4 R5]; cbn in *.
        unfold reads, received in *.
        constructor; cbn; auto.
        exists (pkt :: consumed). cbn. now rewrite R1 at 1; rewrite R2.
    + destruct (audio_decoder_for pkt p) as [d | ] eqn:Hd.
      * destruct (drain_audio_io (avcodec_send_packet d pkt) (audio p))
          as (D1 & D2 & D3).
        destruct (drain_audio_events (avcodec_send_packet d pkt) (audio p))
          as [_ D4].
        destruct (drain_audio (avcodec_send_packet d pkt) (audio p)) as [r drained].
        cbn [fst snd] in *.
        specialize (IH (set_audio r (set_adec (Some []) p))).
        destruct (decode_loop rest (set_audio r (set_adec (Some []) p)))
          as [[[g rest'] p'] evs].
        destruct IH as [(consumed & R1 & R2) R3 R4 R5]; cbn in *.
        unfold reads, received in *.
        constructor; cbn.
        -- exists (pkt :: consumed). cbn.
           rewrite omap_app, D1, R2. now rewrite R1 at 1.
        -- assumption.
        -- rewrite omap_app, D2, foldl_app, <- D4. exact R4.
        -- rewrite forallb_app, D3. exact R5.
      * specialize (IH p).
        destruct (decode_loop rest p) as [[[g rest'] p'] evs].
        destruct IH as [(consumed & R1 & R2) R3 R4 R5]; cbn in *.
        unfold reads, received in *.
        constructor; cbn; auto.
        exists (pkt :: consumed). cbn. now rewrite R1 at 1; rewrite R2.
Qed.

Lemma packets_read_app (e1 e2 : list event) :
  packets_read (e1 ++ e2) = packets_read e1 ++ packets_read e2.
Proof. unfold packets_read. now rewrite reads_app, omap_app. Qed.

Lemma omap_id_Some {A} (l : list A) (tl : list (option A)) :
  omap id ((Some <$> l) ++ tl) = l ++ omap id tl.
Proof. induction l as [ | x l IH]; cbn; [reflexivity | now rewrite IH]. Qed.

Lemma decode_loop_position (rest : list AVPacket) (p : Player) :
  rest = packets_read (decode_loop rest p).2 ++ (decode_loop rest p).1.1.2.
Proof.
  destruct (decode_loop_io rest p) as [(consumed & R1 & R2) _ _ _].
  unfold packets_read. rewrite R2, omap_id_Some.
  destruct (decode_loop rest p).1.1.1; cbn; now rewrite app_nil_r.
Qed.

Lemma seek_block_io (t : float) (p : Player) :
  reads (seek_block t p).2 = [] /\
  received Audio (seek_block t p).2 = [] /\
  forallb (negb ∘ is_open_audio) (seek_block t p).2 = true /\
  audio (seek_block t p).1 = (if seeking p then audio_reset (audio p) else audio p) /\
  seeking (seek_block t p).1 = false /\
  (seeking p = false -> seek_block t p = (p, [])).
Proof.
  unfold seek_block. destruct (seeking p) eqn:Hs; cbn.
  - destruct (adec p); cbn; repeat split; auto; discriminate.
  - repeat split; auto.
Qed.

(** The parts of a pass: the state and calls of the seek block, the result
    of the decode loop started there, and whether the frame is shown. *)
Lemma iterate_parts (t : Tick) (p : Player) :
  let sk := seek_block (now t) p in
  let dl := decode_loop (fmt_rest (fmt sk.1)) sk.1 in
  let show := dl.1.1.1 && present_gate (now t - start p) (last_video p) in
  (iterate t p).1.1 = dl.1.1.1 /\
  (iterate t p).2 =
    EvTime (now t) :: sk.2 ++ dl.2
      ++ (if show then [EvRender (vframe dl.1.2)] else []) /\
  fmt (iterate t p).1.2 = with_rest dl.1.1.2 (fmt dl.1.2) /\
  audio (iterate t p).1.2 = audio dl.1.2 /\
  seeking (iterate t p).1.2 = dl.1.1.1 && slider_moved t.
Proof.
  cbn zeta. unfold iterate.
  pose proof (seek_block_facts (now t) p) as [_ _ S3 _ _ _].
  pose proof (seek_block_io (now t) p) as (_ & _ & _ & _ & S5 & _).
  destruct (seek_block (now t) p) as [p1 ev_seek]; cbn [fst snd] in *.
  pose proof (decode_loop_facts (fmt_rest (fmt p1)) p1) as [_ _ _ D4 _ D6 _ _ _ _].
  destruct (decode_loop (fmt_rest (fmt p1)) p1) as [[[got rest] p2] ev_decode].
  cbn [fst snd] in *. rewrite S5 in D6.
  destruct got; cbn [negb andb].
  - change (last_video (set_fmt (with_rest rest (fmt p2)) p2)) with (last_video p2).
    rewrite D4, S3.
    destruct (present_gate (now t - start p) (last_video p));
      unfold slider_moved; destruct (slider t); cbn; repeat split; auto.
  - cbn. rewrite app_nil_r. repeat split; auto.
Qed.

Lemma iterate_position (t : Tick) (p : Player) :
  fmt_rest (fmt (seek_block (now t) p).1) =
    packets_read (iterate t p).2 ++ fmt_rest (fmt (iterate t p).1.2).
Proof.
  destruct (iterate_parts t p) as (_ & -> & -> & _).
  destruct (seek_block_io (now t) p) as (S1 & _).
  rewrite (decode_loop_position (fmt_rest (fmt (seek_block (now t) p).1))
             (seek_block (now t) p).1) at 1.
  assert (Hs : packets_read (seek_block (now t) p).2 = [])
    by (unfold packets_read; now rewrite S1).
  change (EvTime (now t) :: ?l) with ([EvTime (now t)] ++ l).
  rewrite !packets_read_app, Hs.
  destruct (_ && _); cbn; now rewrite ?app_nil_r.
Qed.

(** X11: in every pass the packets are read one after the other from the
    position the seek block left, none skipped and none read twice, and the
    read position afterwards is just past the packets read. *)
Lemma pass_reads_consecutive_packets (t : Tick) (p : Player) :
  fmt_rest (fmt (seek_block (now t) p).1) =
    packets_read (iterate t p).2 ++ fmt_rest (fmt (iterate t p).1.2).
Proof. exact (iterate_position t p). Qed.

(** X4: every frame the audio decoder hands out in a pass is pushed to the
    ring buffer, in order, on top of the buffer the seek block left (reset
    when a seek was armed); nothing else writes to it. *)
Lemma pass_pushes_every_audio_frame (t : Tick) (p : Player) :
  audio (iterate t p).1.2 =
    foldl (flip push_audio_frame)
      (if seeking p then audio_reset (audio p) else audio p)
      (received Audio (iterate t p).2).
Proof.
  destruct (iterate_parts t p) as (_ & -> & _ & -> & _).
  destruct (seek_block_io (now t) p) as (_ & S2 & _ & S4 & _).
  destruct (decode_loop_io (fmt_rest (fmt (seek_block (now t) p).1))
              (seek_block (now t) p).1) as [_ _ D3 _].
  rewrite D3, S4.
  change (EvTime (now t) :: ?l) with ([EvTime (now t)] ++ l).
  rewrite !received_app, S2. cbn.
  destruct (_ && _); cbn; now rewrite ?app_nil_r.
Qed.

(** X13: a seek request lives for one pass: after a pass the flag is set
    exactly when the slider was moved during that pass (and the pass did not
    leave the loop); a request that was pending before has been served. *)
Lemma seek_request_is_served_in_the_next_pass (t : Tick) (p : Player) :
  seeking (iterate t p).1.2 = (iterate t p).1.1 && slider_moved t.
Proof. destruct (iterate_parts t p) as (-> & _ & _ & _ & ->). reflexivity. Qed.

(** ** Whole runs *)

Lemma main_loop_unfold (t : Tick) (ticks : list Tick) (p : Player) :
  should_close t = false -> (iterate t p).1.1 = true ->
  main_loop (t :: ticks) p =
    (let '(e, p'', evs') := main_loop ticks (iterate t p).1.2 in
     (e, p'', (iterate t p).2 ++ evs')).
Proof.
  intros Hc Hg. cbn [main_loop]. rewrite Hc.
  destruct (iterate t p) as [[g p'] evs]. cbn in Hg. subst g. reflexivity.
Qed.

(** X12: as long as the slider is never moved, a run reads the packets of
    the container in order, each one once: the packets ahead at the start
    are the packets read followed by the packets still ahead at the end. *)
Lemma run_without_seek_reads_in_order (ticks : list Tick) (p : Player) :
  seeking p = false -> Forall (fun t => slider t = None) ticks ->
  fmt_rest (fmt p) =
    packets_read (main_loop ticks p).2 ++ fmt_rest (fmt (main_loop ticks p).1.2).
Proof.
  revert p. induction ticks as [ | t ticks IH]; intros p Hs Hall; [reflexivity | ].
  apply Forall_cons in Hall as [Ht Hall].
  cbn [main_loop]. destruct (should_close t); [reflexivity | ].
  pose proof (iterate_position t p) as Hpass.
  assert (Hnext : seeking (iterate t p).1.2 = (iterate t p).1.1 && slider_moved t).
  { destruct (iterate_parts t p) as (-> & _ & _ & _ & ->). reflexivity. }
  destruct (seek_block_io (now t) p) as (_ & _ & _ & _ & _ & Hidle).
  rewrite (Hidle Hs) in Hpass. cbn [fst] in Hpass.
  unfold slider_moved in Hnext. rewrite Ht, andb_false_r in Hnext.
  destruct (iterate t p) as [[go p1] evs]. cbn [fst snd] in *.
  destruct go; [ | exact Hpass].
  specialize (IH p1 Hnext Hall).
  destruct (main_loop ticks p1) as [[e p2] evs']. cbn [fst snd] in *.
  now rewrite packets_read_app, <- app_assoc, <- IH.
Qed.

Lemma run_without_seek_reads_in_order_witness :
  packets clip =
    packets_read (main_loop [tick 0 None; tick 0.5 None] (opened clip 0)).2
      ++ fmt_rest (fmt (main_loop [tick 0 None; tick 0.5 None] (opened clip 0)).1.2).
Proof.
  apply (run_without_seek_reads_in_order
           [tick 0 None; tick 0.5 None] (opened clip 0) eq_refl).
  repeat constructor.
Defined.

Lemma iterate_never_opens_audio (t : Tick) (p : Player) :
  forallb (negb ∘ is_open_audio) (iterate t p).2 = true.
Proof.
  destruct (iterate_parts t p) as (_ & -> & _).
  destruct (seek_block_io (now t) p) as (_ & _ & S3 & _).
  destruct (decode_loop_io (fmt_rest (fmt (seek_block (now t) p).1))
              (seek_block (now t) p).1) as [_ _ _ D4].
  change (EvTime (now t) :: ?l) with ([EvTime (now t)] ++ l).
  rewrite !forallb_app, S3, D4.
  match goal with |- context [if ?b then _ else _] => destruct b end;
    reflexivity.
Qed.

Lemma main_loop_never_opens_audio (ticks : list Tick) (p : Player) :
  forallb (negb ∘ is_open_audio) (main_loop ticks p).2 = true.
Proof.
  revert p. induction ticks as [ | t ticks IH]; intros p; [reflexivity | ].
  cbn [main_loop]. destruct (should_close t); [reflexivity | ].
  pose proof (iterate_never_opens_audio t p) as Hi.
  destruct (iterate t p) as [[go p1] evs]. cbn [snd] in Hi.
  destruct go; [ | exact Hi].
  specialize (IH p1). destruct (main_loop ticks p1) as [[e p2] evs'].
  cbn [snd] in *. now rewrite forallb_app, Hi, IH.
Qed.

(** ** [open_file] *)

Lemma first_of_keeps (test : AVStream -> bool) (ss : list AVStream) (i cur : Z) :
  0 <= cur -> first_of test ss i cur = cur.
Proof.
  revert i cur. induction ss as [ | st ss IH]; intros i cur H; [reflexivity | ].
  cbn [first_of].
  assert (Hc : (cur <? 0) = false) by (apply Z.ltb_ge; lia).
  rewrite Hc, andb_false_r. now apply IH.
Qed.

Lemma first_of_find (test : AVStream -> bool) (ss : list AVStream) (i cur : Z) :
  0 <= i -> cur < 0 ->
  first_of test ss i cur =
    match list_find (fun st => test st = true) ss with
    | Some (k, _) => i + Z.of_nat k
    | None => cur
    end.
Proof.
  revert i. induction ss as [ | st ss IH]; intros i Hi Hc; [reflexivity | ].
  cbn [first_of list_find].
  assert (Hcb : (cur <? 0) = true) by (apply Z.ltb_lt; lia).
  rewrite Hcb, andb_true_r.
  destruct (test st) eqn:Ht.
  - rewrite decide_True by reflexivity. rewrite first_of_keeps by lia. cbn. lia.
  - rewrite decide_False by discriminate.
    rewrite IH by lia.
    destruct (list_find _ ss) as [[k x] | ]; cbn; lia.
Qed.

Lemma select_streams_split (ss : list AVStream) (i v a : Z) :
  select_streams ss i v a =
    (first_of (is_video ∘ codec_type) ss i v, first_of (is_audio ∘ codec_type) ss i a).
Proof.
  revert i v a. induction ss as [ | st ss IH]; intros i v a; [reflexivity | ].
  cbn [select_streams first_of]. apply IH.
Qed.

(** X14: [open_file] selects the first video stream and the first audio
    stream of the container, each independently of the other, and -1 where
    the container has none. *)
Lemma select_streams_picks_the_first (ss : list AVStream) :
  select_streams ss 0 (-1) (-1) =
    (match list_find (fun st => is_video (codec_type st) = true) ss with
     | Some (k, _) => Z.of_nat k
     | None => -1
     end,
     match list_find (fun st => is_audio (codec_type st) = true) ss with
     | Some (k, _) => Z.of_nat k
     | None => -1
     end).
Proof.
  rewrite select_streams_split.
  rewrite !first_of_find by lia.
  f_equal; destruct (list_find _ ss) as [[k x] | ]; reflexivity.
Qed.

Lemma find_video_is_first_of (ss : list AVStream) (i : Z) :
  0 <= i -> PlayerC.find_video ss i = first_of (is_video ∘ codec_type) ss i (-1).
Proof.
  revert i. induction ss as [ | st ss IH]; intros i Hi; [reflexivity | ].
  cbn [PlayerC.find_video first_of]. cbn [compose Z.ltb Z.compare andb].
  destruct (is_video (codec_type st)); cbn [andb].
  - now rewrite first_of_keeps.
  - apply IH. lia.
Qed.

(** X15: the two programs select the same video stream of a container. *)
Lemma both_programs_select_the_same_video_stream (ss : list AVStream) :
  PlayerC.find_video ss 0 = (select_streams ss 0 (-1) (-1)).1.
Proof. rewrite select_streams_split. now apply find_video_is_first_of. Qed.

(** X16: for a container whose selected video stream has a decoder,
    [open_file] succeeds exactly when the container opens, its stream
    information is found, it has a video stream and the decoder of the first
    video stream opens; it returns -1 otherwise.  The audio stream has no
    say: an audio-only container is refused, a missing or failing audio
    decoder is not. *)
Lemma open_file_succeeds_iff (m : Media) :
  let v := (select_streams (streams m) 0 (-1) (-1)).1 in
  (0 <= v -> codec_found_at m v = true) ->
  (open_file m globals0).1 =
    if opens m && has_stream_info m && (0 <=? v) && codec_opens_at m v
    then 0 else -1.
Proof.
  cbn zeta. intros _. unfold open_file.
  destruct (opens m); cbn [negb andb]; [ | reflexivity].
  destruct (has_stream_info m); cbn [negb andb]; [ | reflexivity].
  cbn [vidx aidx set_fmt globals0].
  destruct (select_streams (streams m) 0 (-1) (-1)) as [v a]. cbn [fst].
  destruct (Z.ltb_spec v 0) as [Hneg | Hpos].
  - destruct (Z.leb_spec 0 v); [lia | reflexivity].
  - destruct (Z.leb_spec 0 v); [ | lia]. cbn [andb].
    destruct (codec_opens_at m v); cbn [negb]; [ | reflexivity].
    destruct (0 <=? a); [destruct (codec_opens_at m a) | ]; reflexivity.
Qed.

Lemma open_file_succeeds_iff_witness :
  (open_file (talkie false) globals0).1 = 0 /\
  (open_file {| opens := true; has_stream_info := true;
                streams := [audio_stream true]; media_duration := 0;
                packets := [] |} globals0).1 = -1.
Proof.
  split.
  - apply (open_file_succeeds_iff (talkie false)). reflexivity.
  - apply (open_file_succeeds_iff
             {| opens := true; has_stream_info := true;
                streams := [audio_stream true]; media_duration := 0;
                packets := [] |}).
    cbn. lia.
Defined.

(** ** [run] *)

(** X17: for a container whose selected video stream has a decoder, [run]
    writes to standard error only when [open_file] failed, and then exactly
    one message, without reading a packet; once the file is open nothing is
    ever reported, whatever the packets hold.  The audio device is opened at
    most once, before the first packet is read, and exactly when the
    container has an audio stream whose decoder opened. *)
Lemma run_reports_only_open_failure
    (plat : Platform) (m : Media) (t0 : float) (ticks : list Tick) :
  let v := (select_streams (streams m) 0 (-1) (-1)).1 in
  let g := (open_file m globals0).2 in
  (0 <= v -> codec_found_at m v = true) ->
  if (open_file m globals0).1 <? 0 then
    run plat m t0 ticks = (OpenFailed, g, [EvStderr "Failed to open file"])
  else
    filter (fun e => is_stderr e = true) (run plat m t0 ticks).2 = [] /\
    filter (fun e => is_open_audio e = true) (run plat m t0 ticks).2 =
      (match adec g with
       | Some _ => if 0 <=? aidx g then [EvOpenAudio (audio_device_ok plat)] else []
       | None => []
       end) /\
    exists e, (run plat m t0 ticks).1.1 = Ended e.
Proof.
  cbn zeta. intros _. unfold run.
  destruct (open_file m globals0) as [ret g]. cbn [fst snd].
  destruct (ret <? 0); [reflexivity | ].
  pose proof (main_loop_facts ticks (set_last_video 0 (set_start t0 g)))
    as (_ & _ & Hq & _).
  pose proof (main_loop_never_opens_audio ticks (set_last_video 0 (set_start t0 g)))
    as Ho.
  destruct (main_loop ticks (set_last_video 0 (set_start t0 g))) as [[e p] evs].
  cbn [fst snd] in *.
  assert (F1 : filter (fun e => is_stderr e = true) evs = []).
  { clear -Hq. induction evs as [ | x evs IH]; [reflexivity | ].
    cbn in Hq. apply andb_true_iff in Hq as [Hx Hq].
    rewrite filter_cons, decide_False; [now apply IH | ].
    destruct (is_stderr x); [discriminate | discriminate]. }
  assert (F2 : filter (fun e => is_open_audio e = true) evs = []).
  { clear -Ho. induction evs as [ | x evs IH]; [reflexivity | ].
    cbn in Ho. apply andb_true_iff in Ho as [Hx Ho].
    rewrite filter_cons, decide_False; [now apply IH | ].
    destruct (is_open_audio x); [discriminate | discriminate]. }
  rewrite !filter_app, F1, F2, !app_nil_r.
  split; [ | split; [ | now exists e]].
  - destruct (adec g); [destruct (0 <=? aidx g) | ]; reflexivity.
  - destruct (adec g); [destruct (0 <=? aidx g) | ]; reflexivity.
Qed.

(** An audio-only container is refused with one message; the clip with
    sound plays without any, and its audio device is opened once. *)
Lemma run_reports_only_open_failure_witness :
  let silent := {| opens := true; has_stream_info := true;
                   streams := [audio_stream true]; media_duration := 0;
                   packets := [] |} in
  let ticks := [tick 0 None; tick 0.5 None] in
  (run desktop silent 0 ticks).2 = [EvStderr "Failed to open file"] /\
  filter (fun e => is_stderr e = true) (run desktop (talkie true) 0 ticks).2 = [] /\
  filter (fun e => is_open_audio e = true) (run desktop (talkie true) 0 ticks).2 =
    [EvOpenAudio true].
Proof.
  cbn zeta. split.
  - assert (H : 0 <= (select_streams [audio_stream true] 0 (-1) (-1)).1 ->
                codec_found_at
                  {| opens := true; has_stream_info := true;
                     streams := [audio_stream true]; media_duration := 0;
                     packets := [] |}
                  (select_streams [audio_stream true] 0 (-1) (-1)).1 = true)
      by (cbn; lia).
    pose proof (run_reports_only_open_failure desktop
                  {| opens := true; has_stream_info := true;
                     streams := [audio_stream true]; media_duration := 0;
                     packets := [] |} 0
                  [tick 0 None; tick 0.5 None] H) as R.
    cbn zeta in R.
    match type of R with
    | if ?b then _ else _ => change b with true in R
    end.
    cbv iota in R. rewrite R. reflexivity.
  - assert (H : 0 <= (select_streams (streams (talkie true)) 0 (-1) (-1)).1 ->
                codec_found_at (talkie true)
                  (select_streams (streams (talkie true)) 0 (-1) (-1)).1 = true)
      by (intros _; reflexivity).
    pose proof (run_reports_only_open_failure desktop (talkie true) 0
                  [tick 0 None; tick 0.5 None] H) as R.
    cbn zeta in R.
    match type of R with
    | if ?b then _ else _ => change b with false in R
    end.
    cbv iota in R. destruct R as (R1 & R2 & _).
    split; [exact R1 | exact R2].
Defined.

(** ** video_player.c *)

Lemma rendered_of_renders (d : list AVFrame) : rendered (EvRender <$> d) = d.
Proof. induction d as [ | f d IH]; [reflexivity | ]. cbn. now f_equal. Qed.

Lemma PlayerC_iterate_frames (t : Tick) (s : PlayerC.State) :
  frames_ahead s =
    rendered (PlayerC.iterate t s).2 ++ frames_ahead (PlayerC.iterate t s).1.2 /\
  ((PlayerC.iterate t s).1.1 = false -> frames_ahead (PlayerC.iterate t s).1.2 = []).
Proof.
  unfold PlayerC.iterate, frames_ahead.
  destruct (_ <=? _)%float; cbn [fst snd]; [ | split; [reflexivity | discriminate]].
  destruct (PlayerC.rest s) as [ | pkt rest'] eqn:Hr; cbn [av_read_frame fst snd];
    rewrite rendered_of_renders; cbn [PlayerC.codecCtx PlayerC.packet PlayerC.rest app].
  - split; [ | reflexivity].
    destruct (PlayerC.packet s); cbn; unfold avcodec_send_packet;
      now rewrite ?app_nil_r.
  - split; [ | discriminate].
    destruct (PlayerC.packet s); cbn; unfold avcodec_send_packet;
      now rewrite ?app_nil_r, <- ?app_assoc.
Qed.

(** video_player.c presents the decoded frames in order and drops
    none: at any moment the frames presented so far, followed by the frames
    still ahead, are all the frames there were, and when the loop ends on
    the end of the file every frame has been presented.  Packets are not
    filtered by stream: the frames of every packet count. *)
Lemma PlayerC_presents_every_frame (ticks : list Tick) (s : PlayerC.State) :
  (exists ahead, frames_ahead s = rendered (PlayerC.loop ticks s).2 ++ ahead) /\
  ((PlayerC.loop ticks s).1 = EndOfStream ->
   rendered (PlayerC.loop ticks s).2 = frames_ahead s).
Proof.
  revert s. induction ticks as [ | t ticks IH]; intros s.
  - cbn. split; [now exists (frames_ahead s) | discriminate].
  - cbn [PlayerC.loop]. destruct (should_close t).
    { cbn. split; [now exists (frames_ahead s) | discriminate]. }
    destruct (PlayerC_iterate_frames t s) as [Hf Hend].
    destruct (PlayerC.iterate t s) as [[go s'] evs]. cbn [fst snd] in *.
    destruct go.
    + destruct (IH s') as [[ahead Ha] He].
      destruct (PlayerC.loop ticks s') as [e evs']. cbn [fst snd] in *.
      rewrite rendered_app, Hf. split.
      * exists ahead. now rewrite Ha, app_assoc.
      * intros H. now rewrite (He H).
    + cbn [fst snd]. rewrite Hf, (Hend eq_refl), app_nil_r.
      split; [exists []; now rewrite app_nil_r | reflexivity].
Qed.

Lemma openVideo_outcome (m : Media) :
  let v := PlayerC.find_video (streams m) 0 in
  let ok := opens m && has_stream_info m && codec_opens_at m v in
  (PlayerC.openVideo m).1.1 = (if ok then 0 else -1) /\
  length (PlayerC.openVideo m).1.2 = (if ok then 0 else 1)%nat /\
  forallb is_stderr (PlayerC.openVideo m).1.2 = true /\
  (ok = true ->
   PlayerC.rest (PlayerC.openVideo m).2 = packets m /\
   PlayerC.packet (PlayerC.openVideo m).2 = None /\
   PlayerC.codecCtx (PlayerC.openVideo m).2 = []).
Proof.
  cbn zeta. unfold PlayerC.openVideo, codec_opens_at.
  destruct (opens m); cbn [negb andb]; [ | now repeat split].
  destruct (has_stream_info m); cbn [negb andb]; [ | now repeat split].
  destruct (Z.eqb_spec (PlayerC.find_video (streams m) 0) (-1)) as [-> | Hv].
  { cbn. now repeat split. }
  destruct (stream_at m (PlayerC.find_video (streams m) 0)) as [st | ];
    [ | now repeat split].
  destruct (codec_found st); cbn [negb andb]; [ | now repeat split].
  destruct (codec_opens st); cbn; now repeat split.
Qed.


(** X20: video_player.c exits with status 1 exactly when the argument count
    is not 2, GLFW or the window cannot be set up, [openVideo] fails, a
    shader does not compile or the shader program does not link. *)
Lemma PlayerC_main_returns_one (argv : list string) (plat : Platform)
    (disk : string -> Media) (ticks : list Tick) :
  (PlayerC.main argv plat disk ticks).1 = Some 1 <->
  length argv <> 2%nat \/ glfw_init_ok plat = false \/ window_ok plat = false \/
  (PlayerC.openVideo (disk (default EmptyString (argv !! 1%nat)))).1.1 < 0 \/
  shaders_ok plat = false \/ program_links plat = false.
Proof.
  unfold PlayerC.main.
  destruct (Z.eqb_spec (Z.of_nat (length argv)) 2) as [Hargc | Hargc]; cbn [negb].
  2: { split; [intros _; left; lia | reflexivity]. }
  destruct (glfw_init_ok plat); cbn [negb]; [ | split; [tauto | reflexivity]].
  destruct (window_ok plat); cbn [negb]; [ | split; [tauto | reflexivity]].
  unfold PlayerC.runPlayer.
  destruct (PlayerC.openVideo _) as [[ret msgs] s]. cbn [fst snd].
  destruct (Z.ltb_spec ret 0) as [Hr | Hr].
  { cbn. split; [tauto | reflexivity]. }
  destruct (shaders_ok plat); cbn [negb]; [ | split; [tauto | reflexivity]].
  destruct (program_links plat); cbn [negb]; [ | split; [tauto | reflexivity]].
  destruct (PlayerC.loop ticks _) as [e evs].
  destruct e; cbn; split; try discriminate;
    intros [H | [H | [H | [H | [H | H]]]]]; try discriminate; lia.
Qed.

(** X21: over a whole session video_player.c presents the frames of the
    container's packets in order without dropping any, and all of them when
    the loop ends on the end of the file; it presents nothing when it exits
    early. *)
Lemma runPlayer_presents_every_frame
    (plat : Platform) (m : Media) (ticks : list Tick) :
  match (PlayerC.runPlayer plat m ticks).1 with
  | inl _ => rendered (PlayerC.runPlayer plat m ticks).2 = []
  | inr e =>
      (exists ahead,
          concat (pkt_decoded <$> packets m) =
            rendered (PlayerC.runPlayer plat m ticks).2 ++ ahead) /\
      (e = EndOfStream ->
       rendered (PlayerC.runPlayer plat m ticks).2 =
         concat (pkt_decoded <$> packets m))
  end.
Proof.
  unfold PlayerC.runPlayer.
  destruct (openVideo_outcome m) as (H1 & H2 & H3 & H4).
  destruct (PlayerC.openVideo m) as [[ret msgs] s]. cbn [fst snd] in *.
  assert (Hmsgs : rendered msgs = []).
  { clear -H3. induction msgs as [ | x msgs IH]; [reflexivity | ].
    cbn in H3. apply andb_true_iff in H3 as [Hx H3].
    destruct x; try discriminate. cbn. now apply IH. }
  destruct (opens m && has_stream_info m && _) eqn:Hok.
  2: { subst ret. cbn. exact Hmsgs. }
  subst ret. cbn [Z.ltb Z.compare].
  destruct (shaders_ok plat); cbn [negb]; [ | exact Hmsgs].
  destruct (program_links plat); cbn [negb]; [ | exact Hmsgs].
  destruct (H4 eq_refl) as (R1 & R2 & R3).
  set (s0 := match av_read_frame (PlayerC.rest s) with
             | (Some pkt, rest') => _
             | (None, _) => s
             end).
  assert (Hall : frames_ahead s0 = concat (pkt_decoded <$> packets m)).
  { unfold s0, frames_ahead. rewrite R1.
    destruct (packets m) as [ | pkt rest']; cbn;
      rewrite ?R1, ?R2, ?R3; reflexivity. }
  destruct (PlayerC_presents_every_frame ticks s0) as [[ahead Ha] He].
  destruct (PlayerC.loop ticks s0) as [e evs]. cbn [fst snd] in *.
  rewrite rendered_app, Hmsgs, <- Hall. cbn [app]. split.
  - now exists ahead.
  - intros ->. now apply He.
Qed.

(** ** The probe for a hardware decoder *)

(** X22: [init_hw_decoder] returns 0 exactly when some configuration of the
    decoder offers the device-context method for a device type other than
    none and that device can be created; it then uses the first such
    configuration.  Otherwise it returns -1 and leaves the decoder context
    as it was, but [hw_type] names the last device it tried to create. *)
Lemma init_hw_decoder_picks_first_device
    (creates : Z -> bool) (cfgs : list AVCodecHWConfig) (s : HwState) :
  init_hw_decoder creates cfgs s =
    match list_find (fun c => hw_usable c && creates (device_type c) = true) cfgs with
    | Some (_, c) =>
        (0, {| hw_type := device_type c;
               hw_device_ctx := Some (device_type c);
               ctx_hw_device_ctx := Some (device_type c) |})
    | None =>
        match last (filter (fun c => hw_usable c = true) cfgs) with
        | Some c =>
            (-1, {| hw_type := device_type c; hw_device_ctx := None;
                    ctx_hw_device_ctx := ctx_hw_device_ctx s |})
        | None => (-1, s)
        end
    end.
Proof.
  revert s. induction cfgs as [ | cfg cfgs IH]; intros s; [reflexivity | ].
  cbn [init_hw_decoder list_find]. rewrite filter_cons.
  destruct (hw_usable cfg) eqn:Hu; cbn [andb].
  - destruct (creates (device_type cfg)) eqn:Hc.
    + rewrite decide_True by reflexivity. reflexivity.
    + rewrite decide_False by discriminate.
      rewrite decide_True by reflexivity.
      rewrite IH. destruct (list_find _ cfgs) as [[k c] | ]; [reflexivity | ].
      cbn [fmap option_fmap option_map]. rewrite last_cons.
      destruct (last _); reflexivity.
  - rewrite decide_False by discriminate.
    rewrite decide_False by discriminate.
    rewrite IH. destruct (list_find _ cfgs) as [[k c] | ]; reflexivity.
Qed.

(** ** Texture upload *)

Lemma byte_at_drop (buf : list byte) (n : nat) (k : Z) :
  0 <= k -> byte_at (drop n buf) k = byte_at buf (Z.of_nat n + k).
Proof.
  intros Hk. unfold byte_at.
  destruct (Z.ltb_spec k 0); [lia | ].
  destruct (Z.ltb_spec (Z.of_nat n + k) 0); [lia | ].
  rewrite lookup_drop. f_equal. lia.
Qed.

Lemma unpack_stride_nonneg (w : Z) : 0 <= w -> 0 <= unpack_stride w.
Proof.
  intros H. unfold unpack_stride.
  assert (0 <= (w + 3) / 4) by (apply Z.div_pos; lia). lia.
Qed.

Lemma read_rows_lookup (mem : list byte) (w h x y : Z) :
  0 <= x < w -> 0 <= y < h ->
  (row ← read_rows mem w h !! Z.to_nat y; row !! Z.to_nat x) =
    byte_at mem (y * unpack_stride w + x).
Proof.
  intros Hx Hy. unfold read_rows.
  rewrite list_lookup_fmap.
  rewrite (lookup_seqZ_lt 0 h (Z.to_nat y)) by lia. cbn [fmap option_fmap option_map mbind option_bind].
  rewrite lookup_take_lt by lia.
  assert (Hs : 0 <= unpack_stride w) by (apply unpack_stride_nonneg; lia).
  replace (0 + Z.of_nat (Z.to_nat y)) with y by lia.
  unfold byte_at. destruct (Z.ltb_spec (y * unpack_stride w + x) 0); [nia | ].
  rewrite lookup_drop. f_equal. nia.
Qed.

Lemma texel_of_image (s : GLState) (name w h x y : Z) (mem : list byte) :
  gl_image s name =
    Some {| img_width := w; img_height := h; img_rows := read_rows mem w h |} ->
  0 <= x < w -> 0 <= y < h ->
  texel s name x y = byte_at mem (y * unpack_stride w + x).
Proof.
  intros Hi Hx Hy. unfold texel.
  destruct (Z.ltb_spec x 0); [lia | ]. destruct (Z.ltb_spec y 0); [lia | ].
  cbn [orb]. rewrite Hi. cbn [mbind option_bind img_rows].
  now apply read_rows_lookup.
Qed.

(** What [upload_nv12] leaves in the three textures and on the three
    texture units. *)
Lemma upload_nv12_images (tex : Textures) (buf : list byte) (w h : Z) (s : GLState) :
  0 <= w -> 0 <= h ->
  texY tex <> texU tex -> texY tex <> texV tex -> texU tex <> texV tex ->
  let s' := upload_nv12 tex buf w h s in
  let chroma := drop (Z.to_nat (w * h)) buf in
  gl_image s' (texY tex) =
    Some {| img_width := w; img_height := h; img_rows := read_rows buf w h |} /\
  gl_image s' (texU tex) =
    Some {| img_width := Z.quot w 2; img_height := Z.quot h 2;
            img_rows := read_rows chroma (Z.quot w 2) (Z.quot h 2) |} /\
  gl_image s' (texV tex) =
    Some {| img_width := Z.quot w 2; img_height := Z.quot h 2;
            img_rows := read_rows (drop 1 chroma) (Z.quot w 2) (Z.quot h 2) |} /\
  gl_bound s' 0 = texY tex /\ gl_bound s' 1 = texU tex /\ gl_bound s' 2 = texV tex.
Proof.
  intros Hw Hh Hyu Hyv Huv. cbn zeta.
  assert (Hw2 : 0 <= Z.quot w 2) by (apply Z.quot_pos; lia).
  assert (Hh2 : 0 <= Z.quot h 2) by (apply Z.quot_pos; lia).
  unfold upload_nv12, glTexImage2D, glBindTexture, glActiveTexture.
  cbn [gl_active gl_bound gl_image].
  destruct (Z.ltb_spec w 0); [lia | ]. destruct (Z.ltb_spec h 0); [lia | ].
  destruct (Z.ltb_spec (Z.quot w 2) 0); [lia | ].
  destruct (Z.ltb_spec (Z.quot h 2) 0); [lia | ].
  cbn [orb gl_active gl_bound gl_image Z.eqb Pos.eqb].
  rewrite !Z.eqb_refl.
  destruct (Z.eqb_spec (texY tex) (texV tex)); [contradiction | ].
  destruct (Z.eqb_spec (texY tex) (texU tex)); [contradiction | ].
  destruct (Z.eqb_spec (texU tex) (texV tex)); [contradiction | ].
  repeat split.
Qed.

(** X23: whatever the picture and its size, [upload_nv12] fills the V
    texture with the bytes of the U texture shifted by one: the texel at
    column [x] of the V texture is the texel at column [x + 1] of the same row
    of the U texture. *)
Lemma upload_nv12_v_is_u_shifted
    (tex : Textures) (buf : list byte) (w h : Z) (s : GLState) (x y : Z) :
  0 <= w -> 0 <= h ->
  texY tex <> texU tex -> texY tex <> texV tex -> texU tex <> texV tex ->
  0 <= x -> x + 1 < Z.quot w 2 -> 0 <= y < Z.quot h 2 ->
  texel (upload_nv12 tex buf w h s) (texV tex) x y =
    texel (upload_nv12 tex buf w h s) (texU tex) (x + 1) y.
Proof.
  intros Hw Hh Hyu Hyv Huv Hx Hx' Hy.
  destruct (upload_nv12_images tex buf w h s Hw Hh Hyu Hyv Huv)
    as (_ & HU & HV & _).
  rewrite (texel_of_image _ _ _ _ x y _ HV) by lia.
  rewrite (texel_of_image _ _ _ _ (x + 1) y _ HU) by lia.
  assert (Hs : 0 <= unpack_stride (Z.quot w 2))
    by (apply unpack_stride_nonneg; lia).
  rewrite byte_at_drop by nia. f_equal. lia.
Qed.

Lemma unpack_stride_aligned (w : Z) : w mod 4 = 0 -> unpack_stride w = w.
Proof.
  intros H. unfold unpack_stride.
  rewrite (Z.div_mod w 4) at 1 by lia. rewrite H, Z.add_0_r.
  replace (4 * (w / 4) + 3) with (3 + (w / 4) * 4) by lia.
  rewrite Z.div_add by lia. change (3 / 4) with 0.
  pose proof (Z.div_mod w 4 ltac:(lia)). lia.
Qed.

(** X18: for a picture whose width is a multiple of 8, [upload_nv12] puts
    the luma plane into the Y texture sample for sample, but not the U plane
    into the U texture: row [2 * r] of the U texture is the left half of
    row [r] of the interleaved chroma plane, a U sample in every even column
    and a V sample in every odd one. *)
Lemma upload_nv12_textures
    (tex : Textures) (buf : list byte) (w h : Z) (s : GLState) :
  0 <= w -> w mod 8 = 0 -> 0 <= h ->
  texY tex <> texU tex -> texY tex <> texV tex -> texU tex <> texV tex ->
  let s' := upload_nv12 tex buf w h s in
  (forall x y, 0 <= x < w -> 0 <= y < h ->
     texel s' (texY tex) x y = nv12_luma buf w x y) /\
  (forall c r, 0 <= c -> 2 * c + 1 < Z.quot w 2 -> 0 <= r -> 2 * r < Z.quot h 2 ->
     texel s' (texU tex) (2 * c) (2 * r) = nv12_u buf w h c r /\
     texel s' (texU tex) (2 * c + 1) (2 * r) = nv12_v buf w h c r).
Proof.
  intros Hw Hw8 Hh Hyu Hyv Huv. cbn zeta.
  destruct (upload_nv12_images tex buf w h s Hw Hh Hyu Hyv Huv)
    as (HY & HU & _).
  assert (Hq : Z.quot w 2 = w / 2) by (apply Z.quot_div_nonneg; lia).
  assert (Hw2 : w = 2 * (w / 2)).
  { pose proof (Z.div_mod w 2 ltac:(lia)).
    assert (w mod 2 = 0); [ | lia].
    rewrite (Z.div_mod w 8) by lia. rewrite Hw8, Z.add_0_r.
    replace (8 * (w / 8)) with ((4 * (w / 8)) * 2) by lia.
    apply Z.mod_mul. lia. }
  assert (Hs4 : unpack_stride w = w).
  { apply unpack_stride_aligned.
    rewrite (Z.div_mod w 8) by lia. rewrite Hw8, Z.add_0_r.
    replace (8 * (w / 8)) with ((2 * (w / 8)) * 4) by lia.
    apply Z.mod_mul. lia. }
  assert (Hs8 : unpack_stride (Z.quot w 2) = w / 2).
  { rewrite Hq. apply unpack_stride_aligned.
    assert (w = 8 * (w / 8)) by (pose proof (Z.div_mod w 8 ltac:(lia)); lia).
    assert (w / 2 = (w / 8) * 4); [ | rewrite H0; apply Z.mod_mul; lia].
    rewrite H at 1. replace (8 * (w / 8)) with ((4 * (w / 8)) * 2) by lia.
    rewrite Z.div_mul by lia. lia. }
  split.
  - intros x y Hx Hy.
    rewrite (texel_of_image _ _ _ _ x y _ HY) by lia.
    now rewrite Hs4.
  - intros c r Hc Hc' Hr Hr'.
    assert (Hwh : 0 <= w * h) by nia.
    rewrite (texel_of_image _ _ _ _ (2 * c) (2 * r) _ HU) by lia.
    rewrite (texel_of_image _ _ _ _ (2 * c + 1) (2 * r) _ HU) by lia.
    rewrite Hs8, !byte_at_drop by nia.
    unfold nv12_u, nv12_v. split; f_equal; nia.
Qed.

(** ** More on the ring buffer *)

(** X2: a pull never looks at the buffer at or beyond [audio_buf_size]:
    two buffers that agree below [audio_buf_size] give the same stream. *)
Lemma pull_reads_below_size (stream : list byte) (len : Z) (r1 r2 : AudioBuf) :
  ring_wf r1 ->
  audio_buf_size r2 = audio_buf_size r1 ->
  audio_buf_index r2 = audio_buf_index r1 ->
  take (Z.to_nat (audio_buf_size r1)) (audio_buf r2) =
    take (Z.to_nat (audio_buf_size r1)) (audio_buf r1) ->
  (audio_callback stream len r2).1 = (audio_callback stream len r1).1.
Proof.
  intros [Hi Hs Hspan _] Hsize Hidx Hbuf.
  unfold audio_callback. rewrite Hsize, Hidx.
  destruct (Z.leb_spec (audio_buf_size r1) (audio_buf_index r1)) as [Hu | Hd];
    [reflexivity | ].
  set (gap := audio_buf_size r1 - audio_buf_index r1) in *.
  rewrite (uint32_small gap) by (unfold gap; lia).
  rewrite int_of_uint32_small by lia.
  set (copy := if len <? gap then len else gap).
  assert (Hc : copy <= gap) by (unfold copy; destruct (Z.ltb_spec len gap); lia).
  cbn [fst].
  assert (Hsame : SDL_memcpy stream (audio_buf r2) (audio_buf_index r1) copy =
                  SDL_memcpy stream (audio_buf r1) (audio_buf_index r1) copy).
  { unfold SDL_memcpy. f_equal.
    rewrite !take_drop_commute.
    set (k := (Z.to_nat (audio_buf_index r1) + Z.to_nat copy)%nat).
    assert (Hk : (k `min` Z.to_nat (audio_buf_size r1))%nat = k)
      by (unfold k, gap in *; lia).
    rewrite <- Hk, <- !take_take. now rewrite Hbuf. }
  now rewrite Hsame.
Qed.

Lemma pull_reads_below_size_witness :
  (audio_callback [xff; xff; xff; xff] 3
     {| audio_buf := [x01; x02; x03; xff]; audio_buf_size := 3; audio_buf_index := 1 |}).1 =
  (audio_callback [xff; xff; xff; xff] 3 sample_ring).1.
Proof.
  apply pull_reads_below_size; try reflexivity.
  constructor; unfold INT_MAX; cbn; lia.
Defined.






(** X7: the sample copy loop of the producer is a block copy: it writes
    the first [2 * n] bytes of the frame at the given offset of the buffer and
    changes no other byte and not the length. *)
Lemma copy_samples_is_a_block_copy
    (n : nat) (src : list byte) (off : nat) (buf : list byte) :
  (2 * n <= length src)%nat -> (off + 2 * n <= length buf)%nat ->
  copy_samples n 0 src off buf =
    take off buf ++ take (2 * n) src ++ drop (off + 2 * n) buf.
Proof.
  intros Hsrc Hbuf.
  rewrite copy_samples_block by lia.
  rewrite Nat.mul_0_r, Nat.add_0_r, drop_0.
  rewrite list_inserts_at by (rewrite length_take; lia).
  now rewrite length_take, Nat.min_l by lia.
Qed.

Lemma copy_samples_is_a_block_copy_witness :
  copy_samples 1 0 [x01; x02; x03] 1 [xff; xff; xff; xff] = [xff; x01; x02; xff].
Proof.
  apply (copy_samples_is_a_block_copy 1 [x01; x02; x03] 1 [xff; xff; xff; xff]);
    cbn; lia.
Defined.

(** ** Witnesses for the texture lemmas *)

Lemma upload_nv12_v_is_u_shifted_witness :
  texel (upload_nv12 sample_textures sample_nv12 8 4 gl0) 3 0 0 =
    texel (upload_nv12 sample_textures sample_nv12 8 4 gl0) 2 1 0.
Proof.
  apply (upload_nv12_v_is_u_shifted sample_textures sample_nv12 8 4 gl0 0 0);
    first [cbn; lia | vm_compute; easy].
Defined.

Lemma upload_nv12_textures_witness :
  texel (upload_nv12 sample_textures sample_nv12 8 4 gl0) 1 3 1 =
    nv12_luma sample_nv12 8 3 1 /\
  texel (upload_nv12 sample_textures sample_nv12 8 4 gl0) 2 1 0 =
    nv12_v sample_nv12 8 4 0 0.
Proof.
  assert (H8 : 0 <= 8) by lia. assert (Hm : 8 mod 8 = 0) by reflexivity.
  assert (H4 : 0 <= 4) by lia.
  assert (D1 : texY sample_textures <> texU sample_textures) by (cbn; lia).
  assert (D2 : texY sample_textures <> texV sample_textures) by (cbn; lia).
  assert (D3 : texU sample_textures <> texV sample_textures) by (cbn; lia).
  pose proof (upload_nv12_textures sample_textures sample_nv12 8 4 gl0
                H8 Hm H4 D1 D2 D3) as [HY HU].
  split.
  - apply (HY 3 1); lia.
  - apply (HU 0 0); first [lia | vm_compute; easy].
Defined.
